(* Shallow embedding of the screenshot-to-board pipeline of AACProcessors
   (aac_processors/optional/screenshot_processor.py, class ScreenshotProcessor).

   Modelling conventions:
   - Python ints are Z; Python floats computed from ints by division and by the
     float constants of the source (0.5, 1.2, 0.7, ...) are modelled as exact
     rationals Q.
   - Exceptions are the constructors of [exc]; a fallible function returns
     [res A].
   - The OpenCV contour pass (_try_detection), the OCR engines and the image
     pixels are consumed as capabilities: they are parameters of the
     definitions, so every theorem holds for every behaviour of them. *)

From Stdlib Require Import ZArith QArith String Ascii Bool List Lia Lqa.
From Stdlib Require Import Sorting.Permutation Sorting.Sorted.
Import ListNotations.
Open Scope Z_scope.

(* ------------------------------------------------------------------------- *)
(** * Python runtime fragments *)

Module Py.

Inductive exc : Type :=
| ValueError (msg : string)
| IndexError
| ZeroDivisionError.

Inductive res (A : Type) : Type :=
| Ok (a : A)
| Err (e : exc).
Arguments Ok {A} a.
Arguments Err {A} e.

Definition bind {A B} (m : res A) (k : A -> res B) : res B :=
  match m with Ok a => k a | Err e => Err e end.

Notation "'let*' x ':=' m 'in' k" := (bind m (fun x => k))
  (at level 200, x name, m at level 100, k at level 200).

(** Truthiness of an [Optional[int]]: [None] and [0] are false. *)
Definition truthy (o : option Z) : bool :=
  match o with Some n => negb (n =? 0) | None => false end.

Definition is_some {A} (o : option A) : bool :=
  match o with Some _ => true | None => false end.

(** [range(n)] *)
Definition range (n : Z) : list Z := map Z.of_nat (seq 0 (Z.to_nat n)).

(** [int(q)] on a float: truncation toward zero. *)
Definition py_int (q : Q) : Z := Z.quot (Qnum q) (Zpos (Qden q)).

(** Python's [list.sort(key=...)]: a stable sort; [le a b] is
    [not (key b < key a)]. Insertion places an element before the first
    element it does not exceed, so equal keys keep their order. *)
Fixpoint insert_by {A} (le : A -> A -> bool) (x : A) (l : list A) : list A :=
  match l with
  | [] => [x]
  | y :: ys => if le x y then x :: y :: ys else y :: insert_by le x ys
  end.

Fixpoint sort_by {A} (le : A -> A -> bool) (l : list A) : list A :=
  match l with
  | [] => []
  | x :: xs => insert_by le x (sort_by le xs)
  end.

(** Lexicographic [<=] on the pairs used as sort keys. *)
Definition lex_le (a b : Z * Z) : bool :=
  (fst a <? fst b) || ((fst a =? fst b) && (snd a <=? snd b)).

End Py.

Import Py.

(* ------------------------------------------------------------------------- *)
(** * GridGeometryDetector: [detect_grid] *)

Module Grid.

(** A cell box [(x, y, w, h)] as returned by [cv2.boundingRect]. *)
Definition box : Type := (Z * Z * Z * Z)%type.

Definition bx (b : box) : Z := let '(x, _, _, _) := b in x.
Definition by_ (b : box) : Z := let '(_, y, _, _) := b in y.
Definition bw (b : box) : Z := let '(_, _, w, _) := b in w.
Definition bh (b : box) : Z := let '(_, _, _, h) := b in h.

(** The parameter lists of [detect_grid], in source order. *)
Definition area_ranges_hint : list (Q * Q) :=
  [(5 # 10000, 2 # 10); (1 # 1000, 1 # 10); (3 # 1000, 7 # 100); (5 # 1000, 5 # 100)].
Definition area_ranges_nohint : list (Q * Q) :=
  [(5 # 1000, 5 # 100); (3 # 1000, 7 # 100); (1 # 1000, 1 # 10)].
Definition aspect_ranges : list (Q * Q) :=
  [(2 # 10, 5 # 1); (5 # 10, 2 # 1); (7 # 10, 15 # 10); (8 # 10, 12 # 10)].

Definition area_ranges (grid_rows grid_cols : option Z) : list (Q * Q) :=
  if is_some grid_rows && is_some grid_cols then area_ranges_hint
  else area_ranges_nohint.

Definition expected_cells (grid_rows grid_cols : option Z) : Z :=
  match grid_rows, grid_cols with Some r, Some c => r * c | _, _ => 0 end.

(** The acceptance test of one combination's boxes ([if boxes:] and the
    threshold that follows). *)
Definition accepts (grid_rows grid_cols : option Z) (boxes : list box) : bool :=
  match boxes with
  | [] => false
  | _ :: _ =>
      if truthy grid_rows && truthy grid_cols then
        Qle_bool (inject_Z (expected_cells grid_rows grid_cols) * (1 # 2))
                 (inject_Z (Z.of_nat (length boxes)))
      else 12 <=? Z.of_nat (length boxes)
  end.

Section Detect.

(** [self._try_detection(img, *area_range, *aspect_range)]. *)
Variable try_detection : Q * Q -> Q * Q -> list box.

(** The inner [for aspect_range in aspect_ranges] loop with its [break]. *)
Fixpoint sweep_aspects (grid_rows grid_cols : option Z) (area : Q * Q)
    (asps : list (Q * Q)) : list box :=
  match asps with
  | [] => []
  | asp :: rest =>
      let boxes := try_detection area asp in
      if accepts grid_rows grid_cols boxes then boxes
      else sweep_aspects grid_rows grid_cols area rest
  end.

(** The outer [for area_range in area_ranges] loop: [if best_boxes: break]. *)
Fixpoint sweep_areas (grid_rows grid_cols : option Z) (areas : list (Q * Q))
    : list box :=
  match areas with
  | [] => []
  | area :: rest =>
      match sweep_aspects grid_rows grid_cols area aspect_ranges with
      | [] => sweep_areas grid_rows grid_cols rest
      | best => best
      end
  end.

Definition sweep (grid_rows grid_cols : option Z) : list box :=
  sweep_areas grid_rows grid_cols (area_ranges grid_rows grid_cols).

End Detect.

(** The artificial evenly spaced grid ([H] = img.shape[0], [W] = img.shape[1]). *)
Definition fallback_grid (H W rows cols : Z) : list box :=
  let cell_height := (inject_Z H / inject_Z rows)%Q in
  let cell_width := (inject_Z W / inject_Z cols)%Q in
  flat_map (fun row =>
    map (fun col =>
      (py_int (inject_Z col * cell_width)%Q, py_int (inject_Z row * cell_height)%Q,
       py_int cell_width, py_int cell_height)) (range cols)) (range rows).

(** Lines 154-191: the sweep, the fallback and the no-cells error. *)
Definition select_boxes (try_detection : Q * Q -> Q * Q -> list box)
    (H W : Z) (grid_rows grid_cols : option Z) : res (list box) :=
  let best := sweep try_detection grid_rows grid_cols in
  let* best :=
    match best, grid_rows, grid_cols with
    | [], Some r, Some c =>
        if r =? 0 then Err ZeroDivisionError
        else if c =? 0 then Err ZeroDivisionError
        else Ok (fallback_grid H W r c)
    | _, _, _ => Ok best
    end in
  match best with
  | [] => Err (ValueError "No cells detected in image")
  | _ => Ok best
  end.

(** numpy helpers on rationals. *)
Definition Qle_b (a b : Q) : bool := Qle_bool a b.
Definition Qlt_b (a b : Q) : bool := negb (Qle_bool b a).
Definition sort_Q (l : list Q) : list Q := sort_by Qle_b l.

Fixpoint diff (l : list Q) : list Q :=
  match l with
  | a :: (b :: _) as t => (b - a)%Q :: diff t
  | _ => []
  end.

Definition Qsum (l : list Q) : Q := fold_right Qplus 0%Q l.

(** [np.mean]; of an empty array it is nan, which only ever meets an empty
    mask below, so its value there does not matter. *)
Definition mean (l : list Q) : Q :=
  match l with [] => 0%Q | _ => (Qsum l / inject_Z (Z.of_nat (length l)))%Q end.

(** [np.median]: the middle element, or the mean of the two middle ones. *)
Definition median (l : list Q) : Q :=
  let s := sort_Q l in
  let n := length s in
  if Nat.odd n then nth (n / 2)%nat s 0%Q
  else match n with
       | O => 0%Q
       | _ => ((nth (n / 2 - 1)%nat s 0 + nth (n / 2)%nat s 0) / 2)%Q
       end.

(** [find_clusters] (lines 211-220). *)
Definition find_clusters (coords : list Q) : Z :=
  match coords with
  | [] => 0
  | _ =>
      let sorted_coords := sort_Q coords in
      let diffs := diff sorted_coords in
      let threshold := (median diffs * (6 # 5))%Q in
      let min_gap := (mean diffs * (4 # 5))%Q in
      let mask := fun d => Qlt_b threshold d && Qlt_b min_gap d in
      let gaps := filter (fun i => mask (nth i diffs 0%Q)) (seq 0 (length diffs)) in
      Z.of_nat (length gaps) + 1
  end.

Definition center_x (b : box) : Q := (inject_Z (bx b) + inject_Z (bw b) / 2)%Q.
Definition center_y (b : box) : Q := (inject_Z (by_ b) + inject_Z (bh b) / 2)%Q.

(** [np.linspace(0, stop, num)]. *)
Definition linspace0 (stop : Q) (num : Z) : res (list Q) :=
  if num <? 0 then Err (ValueError "Number of samples must be non-negative")
  else if num =? 1 then Ok [0%Q]
  else Ok (map (fun i => (inject_Z i * stop / inject_Z (num - 1))%Q) (range num)).

(** [np.searchsorted(a, v)] (side='left') on an ascending array: the number
    of entries strictly below [v]. *)
Definition searchsorted (a : list Q) (v : Q) : Z :=
  Z.of_nat (length (filter (fun e => Qlt_b e v) a)).

Definition clamp (gsize v : Z) : Z := Z.max 0 (Z.min v (gsize - 1)).

(** [get_grid_position] (lines 226-243), returning [(row, col)]. *)
Definition get_grid_position (H W grid_width grid_height : Z) (b : box)
    : res (Z * Z) :=
  let* x_edges := linspace0 (inject_Z W) (grid_width + 1) in
  let* y_edges := linspace0 (inject_Z H) (grid_height + 1) in
  let col := searchsorted x_edges (center_x b) - 1 in
  let row := searchsorted y_edges (center_y b) - 1 in
  Ok (clamp grid_height row, clamp grid_width col).

Definition pos_eqb (p q : Z * Z) : bool := (fst p =? fst q) && (snd p =? snd q).

(** Lines 246-253: keep the first box of each position. *)
Fixpoint position_boxes (H W gw gh : Z) (used : list (Z * Z)) (bs : list box)
    : res (list (box * (Z * Z))) :=
  match bs with
  | [] => Ok []
  | b :: rest =>
      let* pos := get_grid_position H W gw gh b in
      if existsb (pos_eqb pos) used then position_boxes H W gw gh used rest
      else
        let* tl := position_boxes H W gw gh (pos :: used) rest in
        Ok ((b, pos) :: tl)
  end.

Definition box_key_le (a b : box) : bool := lex_le (by_ a, bx a) (by_ b, bx b).
Definition pos_key_le (a b : box * (Z * Z)) : bool := lex_le (snd a) (snd b).

(** [detect_grid] (lines 117-259) on an image of [H] rows and [W] columns;
    returns [(grid_width, grid_height, boxes)]. *)
Definition detect_grid (try_detection : Q * Q -> Q * Q -> list box)
    (H W : Z) (grid_rows grid_cols : option Z) : res (Z * Z * list box) :=
  let* best := select_boxes try_detection H W grid_rows grid_cols in
  let best := sort_by box_key_le best in
  let '(gw, gh) :=
    match grid_rows, grid_cols with
    | Some r, Some c => (c, r)
    | _, _ => (find_clusters (map center_x best), find_clusters (map center_y best))
    end in
  let* positioned := position_boxes H W gw gh [] best in
  let positioned := sort_by pos_key_le positioned in
  Ok (gw, gh, map fst positioned).

End Grid.

(* ------------------------------------------------------------------------- *)
(** * The detection sweep as an ordered strategy list *)

Module Sweep.
Import Grid.

(** The (area range, aspect range) combinations in the order of the two
    nested loops of [detect_grid]. *)
Definition combos (grid_rows grid_cols : option Z) : list ((Q * Q) * (Q * Q)) :=
  flat_map (fun area => map (fun asp => (area, asp)) aspect_ranges)
           (area_ranges grid_rows grid_cols).

(** The first combination's boxes that pass the acceptance test, or [[]]. *)
Fixpoint first_accepted (try_detection : Q * Q -> Q * Q -> list box)
    (grid_rows grid_cols : option Z) (cs : list ((Q * Q) * (Q * Q))) : list box :=
  match cs with
  | [] => []
  | (area, asp) :: rest =>
      if accepts grid_rows grid_cols (try_detection area asp)
      then try_detection area asp
      else first_accepted try_detection grid_rows grid_cols rest
  end.

(** The acceptance threshold in the words of the spec: half of
    [rows * cols] when both hints are given and non-zero, 12 otherwise. *)
Definition threshold_met (grid_rows grid_cols : option Z) (n : nat) : Prop :=
  match grid_rows, grid_cols with
  | Some r, Some c =>
      if (r =? 0) || (c =? 0) then 12 <= Z.of_nat n else r * c <= 2 * Z.of_nat n
  | _, _ => 12 <= Z.of_nat n
  end.

(** [a] is contained in [b]: [a] is at least as restrictive. *)
Definition range_within (a b : Q * Q) : Prop :=
  (fst b <= fst a)%Q /\ (snd a <= snd b)%Q.

Definition combo_within (c d : (Q * Q) * (Q * Q)) : Prop :=
  range_within (fst c) (fst d) /\ range_within (snd c) (snd d).

End Sweep.

(* ------------------------------------------------------------------------- *)
(** * Python text: ASCII strings as [list ascii] *)

Module Text.

Definition str : Type := list ascii.

Definition s (x : string) : str := list_ascii_of_string x.

Definition code (c : ascii) : nat := nat_of_ascii c.

(** [str.isspace] on one character: \t \n \v \f \r, \x1c-\x1f and space. *)
Definition is_space (c : ascii) : bool :=
  let n := code c in
  ((9 <=? n) && (n <=? 13))%nat || ((28 <=? n) && (n <=? 32))%nat.

Definition is_digit (c : ascii) : bool := ((48 <=? code c) && (code c <=? 57))%nat.
Definition is_upper (c : ascii) : bool := ((65 <=? code c) && (code c <=? 90))%nat.
Definition is_lower (c : ascii) : bool := ((97 <=? code c) && (code c <=? 122))%nat.

(** [str.isalnum] on one character. *)
Definition is_alnum (c : ascii) : bool := is_digit c || is_upper c || is_lower c.

(** [str.lower] *)
Definition lower_char (c : ascii) : ascii :=
  if is_upper c then ascii_of_nat (code c + 32) else c.
Definition lower (t : str) : str := map lower_char t.

Fixpoint lstrip (t : str) : str :=
  match t with
  | c :: r => if is_space c then lstrip r else t
  | [] => []
  end.

Definition rstrip (t : str) : str := rev (lstrip (rev t)).

(** [str.strip()] *)
Definition strip (t : str) : str := rstrip (lstrip t).

(** [str.isspace()]: non-empty and only whitespace. *)
Definition isspace (t : str) : bool :=
  match t with [] => false | _ => forallb is_space t end.

(** [sep.join(parts)] *)
Fixpoint join (sep : str) (parts : list str) : str :=
  match parts with
  | [] => []
  | [p] => p
  | p :: ps => p ++ sep ++ join sep ps
  end.

Fixpoint str_eqb (a b : str) : bool :=
  match a, b with
  | [], [] => true
  | x :: a', y :: b' => Ascii.eqb x y && str_eqb a' b'
  | _, _ => false
  end.

(** Base-[b] digits of a non-negative integer, lowercase. *)
Definition digit_char (d : Z) : ascii :=
  ascii_of_nat (if d <? 10 then 48 + Z.to_nat d else 87 + Z.to_nat d).

Fixpoint digits_aux (fuel : nat) (b n : Z) (acc : str) : str :=
  match fuel with
  | O => acc
  | S f =>
      let acc' := digit_char (n mod b) :: acc in
      if n / b =? 0 then acc' else digits_aux f b (n / b) acc'
  end.

Definition digits (b n : Z) : str := digits_aux (S (Z.to_nat (Z.log2 n))) b n [].

(** [str(n)] and [f"{n:02x}"]. *)
Definition str_of_int (n : Z) : str :=
  if n <? 0 then "-"%char :: digits 10 (- n) else digits 10 n.
Definition hex02 (n : Z) : str :=
  if n <? 0 then "-"%char :: digits 16 (- n)
  else let d := digits 16 n in
       match d with [_] => "0"%char :: d | _ => d end.

(** The text starts / ends with a non-whitespace character. *)
Definition starts_ok (t : str) : bool :=
  match t with c :: _ => negb (is_space c) | [] => false end.
Definition ends_ok (t : str) : bool := starts_ok (rev t).

End Text.

Import Text.

(* ------------------------------------------------------------------------- *)
(** * CellContentExtractor: [detect_cell_content] *)

Module Cell.

(** The average colour, the text and the colour dict of the result. *)
Record content := { text : str; color_b : Z; color_g : Z; color_r : Z }.

(** [re.sub(r"[^\w\s.-]", "", text)] *)
Definition allowed (c : ascii) : bool :=
  is_alnum c || (code c =? 95)%nat || is_space c
  || Ascii.eqb c "."%char || Ascii.eqb c "-"%char.

(** [re.sub(r"\s+", " ", text)]: each maximal whitespace run becomes one space. *)
Fixpoint collapse_ws (in_run : bool) (t : str) : str :=
  match t with
  | [] => []
  | c :: r =>
      if is_space c then
        if in_run then collapse_ws true r else " "%char :: collapse_ws true r
      else c :: collapse_ws false r
  end.

(** Lines 324-331. *)
Definition cleanup (text : str) : str :=
  let text := filter allowed text in
  let text := collapse_ws false text in
  let text := strip text in
  if (length text <? 2)%nat || isspace text then [] else text.

Section DetectCell.

(** The preprocessing before the [try] (crop, [cv2.mean], grayscale, CLAHE,
    denoising, thresholding, scaling): it yields the average BGR colour and
    the scaled image, or raises. *)
Variable image : Type.
Variable preprocess : res ((Q * Q * Q) * image).

(** [pytesseract.image_to_string(scaled, config=...)] with [--psm] 8 or 7;
    [None] is a raised exception. *)
Variable ocr : Z -> image -> option str.

(** The [try] block (lines 302-335): [None] when it raised. *)
Definition ocr_text (scaled : image) : option str :=
  match ocr 8 scaled with
  | None => None
  | Some t =>
      let t := strip t in
      match t with
      | [] => match ocr 7 scaled with
              | None => None
              | Some t' => Some (cleanup (strip t'))
              end
      | _ => Some (cleanup t)
      end
  end.

Definition detect_cell_content : res content :=
  let* prep := preprocess in
  let '(avg_color, scaled) := prep in
  let '(b, g, r) := avg_color in
  let text := match ocr_text scaled with Some t => t | None => [] end in
  Ok {| text := text; color_b := py_int b; color_g := py_int g; color_r := py_int r |}.

(** The OCR step fails: the first call raises, or it reads nothing and the
    second call raises. *)
Definition ocr_fails (scaled : image) : Prop :=
  ocr 8 scaled = None \/
  (exists t, ocr 8 scaled = Some t /\ strip t = [] /\ ocr 7 scaled = None).

End DetectCell.

End Cell.

(* ------------------------------------------------------------------------- *)
(** * TextRegionMerger: [merge_nearby_regions] *)

Module Merge.
Import Grid.

(** A text region dict: ["box"], ["text"], ["confidence"], ["color"]. *)
Record region := {
  rbox : box;
  rtext : str;
  rconf : Q;
  rcolor : Z * Z * Z
}.

Definition with_box_text_conf (r : region) (b : box) (t : str) (c : Q) : region :=
  {| rbox := b; rtext := t; rconf := c; rcolor := rcolor r |}.

Definition Qmin (a b : Q) : Q := if Qle_bool a b then a else b.

(** Python's [text[-1]] and [text[0]]. *)
Definition last_char (t : str) : res ascii :=
  match rev t with c :: _ => Ok c | [] => Err IndexError end.
Definition first_char (t : str) : res ascii :=
  match t with c :: _ => Ok c | [] => Err IndexError end.

(** Lines 475-481: [text1[-1].isalnum() and text2[0].isalnum()]. *)
Definition join_text (text1 text2 : str) : res str :=
  let* c1 := last_char text1 in
  if is_alnum c1 then
    let* c2 := first_char text2 in
    if is_alnum c2 then Ok (text1 ++ " "%char :: text2) else Ok (text1 ++ text2)
  else Ok (text1 ++ text2).

(** The horizontal-merge test of lines 459-463. *)
Definition horizontal_merge (distance_threshold : Z) (b1 b2 : box) : bool :=
  let '(x1, y1, w1, h1) := b1 in
  let '(x2, y2, w2, h2) := b2 in
  Qlt_b (inject_Z (Z.abs (y1 - y2))) (inject_Z h1 / 3)
  && Qlt_b (inject_Z (Z.abs ((y1 + h1) - (y2 + h2)))) (inject_Z h1 / 3)
  && Qlt_b (inject_Z (Z.abs (x1 + w1 - x2))) (inject_Z distance_threshold).

(** The bounding-box union of lines 468-473. *)
Definition box_union (b1 b2 : box) : box :=
  let '(x1, y1, w1, h1) := b1 in
  let '(x2, y2, w2, h2) := b2 in
  let min_x := Z.min x1 x2 in
  let min_y := Z.min y1 y2 in
  let max_x := Z.max (x1 + w1) (x2 + w2) in
  let max_y := Z.max (y1 + h1) (y2 + h2) in
  (min_x, min_y, max_x - min_x, max_y - min_y).

(** One iteration of the inner loop (lines 451-488) on the running
    [merged_region] and [other]: [None] when [other] is not merged. *)
Definition try_merge (distance_threshold : Z) (cur other : region)
    : res (option region) :=
  let h1 := bh (rbox cur) in
  let h2 := bh (rbox other) in
  if Z.max h1 h2 =? 0 then Err ZeroDivisionError
  else
    let height_ratio := (inject_Z (Z.min h1 h2) / inject_Z (Z.max h1 h2))%Q in
    if Qlt_b height_ratio (7 # 10) then Ok None
    else if horizontal_merge distance_threshold (rbox cur) (rbox other) then
      let* t := join_text (rtext cur) (rtext other) in
      Ok (Some (with_box_text_conf cur (box_union (rbox cur) (rbox other)) t
                  (Qmin (rconf cur) (rconf other))))
    else Ok None.

(** The inner [for j, other in enumerate(regions[i + 1:], i + 1)] loop. *)
Fixpoint merge_into (distance_threshold : Z) (cur : region) (used : list nat)
    (js : list (nat * region)) : res (region * list nat) :=
  match js with
  | [] => Ok (cur, used)
  | (j, other) :: rest =>
      if existsb (Nat.eqb j) used then merge_into distance_threshold cur used rest
      else
        let* step := try_merge distance_threshold cur other in
        match step with
        | None => merge_into distance_threshold cur used rest
        | Some m => merge_into distance_threshold m (j :: used) rest
        end
  end.

(** The outer [for i, region in enumerate(regions)] loop. *)
Fixpoint merge_loop (distance_threshold : Z) (items : list (nat * region))
    (used : list nat) : res (list region) :=
  match items with
  | [] => Ok []
  | (i, r) :: rest =>
      if existsb (Nat.eqb i) used then merge_loop distance_threshold rest used
      else
        let* mu := merge_into distance_threshold r used rest in
        let* tl := merge_loop distance_threshold rest (i :: snd mu) in
        Ok (fst mu :: tl)
  end.

Definition enumerate {A} (l : list A) : list (nat * A) := combine (seq 0 (length l)) l.

Definition region_key_le (a b : region) : bool :=
  lex_le (by_ (rbox a), bx (rbox a)) (by_ (rbox b), bx (rbox b)).

(** [merge_nearby_regions] (lines 426-493). *)
Definition merge_nearby_regions (distance_threshold : Z) (regions : list region)
    : res (list region) :=
  match regions with
  | [] => Ok []
  | _ => merge_loop distance_threshold (enumerate (sort_by region_key_le regions)) []
  end.

(** The last character of a text is alphanumeric / the first one is. *)
Definition ends_alnum (t : str) : bool :=
  match rev t with c :: _ => is_alnum c | [] => false end.
Definition starts_alnum (t : str) : bool :=
  match t with c :: _ => is_alnum c | [] => false end.

(** The spec's merge step: eligibility (height ratio at least 0.7, top and
    bottom edges within a third of the first region's height, horizontal gap
    below the threshold), bounding-box union, text joined with a space exactly
    when both adjoining characters are alphanumeric, minimum confidence. *)
Definition merge_step_spec (distance_threshold : Z) (cur other m : region) : Prop :=
  let '(x1, y1, w1, h1) := rbox cur in
  let '(x2, y2, w2, h2) := rbox other in
  (7 # 10 <= inject_Z (Z.min h1 h2) / inject_Z (Z.max h1 h2))%Q /\
  (inject_Z (Z.abs (y1 - y2)) < inject_Z h1 / 3)%Q /\
  (inject_Z (Z.abs ((y1 + h1) - (y2 + h2))) < inject_Z h1 / 3)%Q /\
  Z.abs (x1 + w1 - x2) < distance_threshold /\
  rbox m = (Z.min x1 x2, Z.min y1 y2,
            Z.max (x1 + w1) (x2 + w2) - Z.min x1 x2,
            Z.max (y1 + h1) (y2 + h2) - Z.min y1 y2) /\
  rtext m = (if ends_alnum (rtext cur) && starts_alnum (rtext other)
             then rtext cur ++ " "%char :: rtext other
             else rtext cur ++ rtext other) /\
  rconf m = Qmin (rconf cur) (rconf other) /\
  rcolor m = rcolor cur.

(** The regions obtainable from the input regions by merge steps, each with
    an input region as [other]. *)
Inductive merged_from (distance_threshold : Z) (regions : list region) : region -> Prop :=
| mf_input r : In r regions -> merged_from distance_threshold regions r
| mf_step cur other m :
    merged_from distance_threshold regions cur -> In other regions ->
    merge_step_spec distance_threshold cur other m ->
    merged_from distance_threshold regions m.

End Merge.

(* ------------------------------------------------------------------------- *)
(** * PageSynthesizer: [create_page_from_screenshot] *)

Module Page.
Import Grid.

Inductive button_type := SPEAK | NAVIGATE | ACTION | WORDLIST | COMMAND.

(** The fields of [AACButton] and [AACPage] that the pipeline sets. *)
Record button := {
  bid : str;
  label : str;
  btype : button_type;
  position : Z * Z;
  body_color : str
}.

Record page := {
  pid : str;
  pname : str;
  grid_size : Z * Z;
  buttons : list button
}.

(** [min(l)] *)
Definition py_min (l : list Z) : res Z :=
  match l with
  | [] => Err (ValueError "min() arg is an empty sequence")
  | x :: r => Ok (fold_left Z.min r x)
  end.

(** [l[k]] with Python's negative indices. *)
Definition py_index (l : list Z) (k : Z) : res Z :=
  let n := Z.of_nat (length l) in
  if (0 <=? k) && (k <? n) then Ok (nth (Z.to_nat k) l 0)
  else if (- n <=? k) && (k <? 0) then Ok (nth (Z.to_nat (n + k)) l 0)
  else Err IndexError.

(** [int(np.median(l))]; the median of an empty list is nan. *)
Definition int_median (l : list Z) : res Z :=
  match l with
  | [] => Err (ValueError "cannot convert float NaN to integer")
  | _ => Ok (py_int (median (map inject_Z l)))
  end.

(** [l[trim:-trim]] *)
Definition trim_slice {A} (trim : nat) (l : list A) : list A :=
  firstn (length l - trim - trim) (skipn trim l).

(** Lines 526-529. *)
Definition grid_origin_y (ignore_rows : Z) (y_coords : list Z) : res Z :=
  if ignore_rows =? 0 then py_min y_coords
  else py_index (sort_by Z.leb y_coords) ignore_rows.

(** Lines 565-573: the search area of cell [(row, col)]. *)
Definition search_area (H W origin_x origin_y mode_width mode_height row col : Z) : box :=
  let x := origin_x + col * mode_width in
  let y := origin_y + row * mode_height in
  let margin := 5 in
  let search_x := Z.max 0 (x - margin) in
  let search_y := Z.max 0 (y - margin) in
  let search_w := Z.min (mode_width + 2 * margin) (W - search_x) in
  let search_h := Z.min (mode_height + 2 * margin) (H - search_y) in
  (search_x, search_y, search_w, search_h).

(** Lines 589-597: the kept OCR fragments of one cell. *)
Definition cell_texts (results : list (str * Q)) : list str :=
  flat_map (fun '(text, conf) =>
    if Qlt_b conf (3 # 10) then []
    else
      let text := strip text in
      match text with
      | [] => []
      | _ => if existsb (str_eqb (lower text)) [s "vocab"; s "menu"] then [] else [text]
      end) results.

(** Line 606: [f"#{r:02x}{g:02x}{b:02x}"] of the BGR mean. *)
Definition color_hex (avg_color : Q * Q * Q) : str :=
  let '(b, g, r) := avg_color in
  "#"%char :: hex02 (py_int r) ++ hex02 (py_int g) ++ hex02 (py_int b).

Section Synth.

(** [reader.readtext(cell_img, ...)] on a search area: [(text, conf)] pairs. *)
Variable readtext : box -> res (list (str * Q)).
(** [cv2.mean(cell_img)[:3]] on a search area. *)
Variable mean_color : box -> Q * Q * Q.

(** The [for row ... for col ...] loop of lines 562-616 over the cells in
    row-major order, appending to [page.buttons]. *)
Fixpoint fill_cells (area : Z -> Z -> box) (cells : list (Z * Z))
    (btns : list button) : res (list button) :=
  match cells with
  | [] => Ok btns
  | (row, col) :: rest =>
      let region := area row col in
      let* results := readtext region in
      match cell_texts results with
      | [] => fill_cells area rest btns
      | texts =>
          let btn := {| bid := s "btn_" ++ str_of_int (Z.of_nat (length btns));
                        label := join [" "%char] texts;
                        btype := SPEAK;
                        position := (row, col);
                        body_color := color_hex (mean_color region) |} in
          fill_cells area rest (btns ++ [btn])
      end
  end.

Definition grid_cells (rows cols : Z) : list (Z * Z) :=
  flat_map (fun row => map (fun col => (row, col)) (range cols)) (range rows).

(** [create_page_from_screenshot] (lines 495-642) on an image of [H] rows
    and [W] columns whose path has stem [stem]. *)
Definition create_page_from_screenshot (try_detection : Q * Q -> Q * Q -> list box)
    (H W : Z) (stem : str) (grid_rows grid_cols : option Z) (ignore_rows : Z)
    : res page :=
  let* det := detect_grid try_detection H W grid_rows grid_cols in
  let '(detected_cols, detected_rows, grid_boxes) := det in
  let actual_rows := match grid_rows with Some r => r | None => detected_rows end in
  let actual_cols := match grid_cols with Some c => c | None => detected_cols end in
  if (actual_rows <? 1) || (actual_cols <? 1) then
    Err (ValueError "Invalid grid dimensions")
  else
    let* grid_origin_x := py_min (map bx grid_boxes) in
    let* grid_origin_y := grid_origin_y ignore_rows (map by_ grid_boxes) in
    let widths := sort_by Z.leb (map bw grid_boxes) in
    let heights := sort_by Z.leb (map bh grid_boxes) in
    let trim := (length widths / 10)%nat in
    let widths := if (0 <? trim)%nat then trim_slice trim widths else widths in
    let heights := if (0 <? trim)%nat then trim_slice trim heights else heights in
    let* mode_width := int_median widths in
    let* mode_height := int_median heights in
    let area := search_area H W grid_origin_x grid_origin_y mode_width mode_height in
    let* btns := fill_cells area (grid_cells actual_rows actual_cols) [] in
    Ok {| pid := s "screenshot_" ++ stem;
          pname := s "Detected Page - " ++ stem;
          grid_size := (actual_rows, actual_cols);
          buttons := btns |}.

End Synth.

End Page.

(* ------------------------------------------------------------------------- *)
(** * [can_process] *)

Module Ext.

(** The components of a POSIX path string, as [PurePosixPath] keeps them:
    empty components (repeated or trailing slashes) and ["."] are dropped. *)
Fixpoint split_slash (cur : str) (t : str) : list str :=
  match t with
  | [] => [rev cur]
  | c :: r => if Ascii.eqb c "/"%char then rev cur :: split_slash [] r
              else split_slash (c :: cur) r
  end.

Definition parts (p : str) : list str :=
  filter (fun part => negb (str_eqb part []) && negb (str_eqb part (s "."))) (split_slash [] p).

(** [PurePath.name]: the last component, or [''] when there is none. *)
Definition name (p : str) : str := last (parts p) [].

(** [name.rfind('.')], or -1. *)
Fixpoint rfind_dot_aux (i : Z) (t : str) (acc : Z) : Z :=
  match t with
  | [] => acc
  | c :: r => rfind_dot_aux (i + 1) r (if Ascii.eqb c "."%char then i else acc)
  end.
Definition rfind_dot (t : str) : Z := rfind_dot_aux 0 t (-1).

(** [PurePath.suffix] *)
Definition suffix (p : str) : str :=
  let nm := name p in
  let i := rfind_dot nm in
  if (0 <? i) && (i <? Z.of_nat (length nm) - 1) then skipn (Z.to_nat i) nm else [].

Definition image_exts : list str := [s ".png"; s ".jpg"; s ".jpeg"; s ".bmp"].

(** [can_process] (lines 644-654). *)
Definition can_process (file_path : str) : bool :=
  existsb (str_eqb (lower (suffix file_path))) image_exts.

End Ext.

(* ------------------------------------------------------------------------- *)
(** * Sample inputs *)

(* ------------------------------------------------------------------------- *)
(** * [_try_detection]: the contour filter *)

Module Contours.
Import Grid.

(** The overlap test of lines 105-110, [existing] being the bounding
    rectangle of an already kept contour. *)
Definition overlap_area (b e : box) : Z :=
  let '(x, y, w, h) := b in
  let '(ex, ey, ew, eh) := e in
  let overlap_x := Z.max 0 (Z.min (x + w) (ex + ew) - Z.max x ex) in
  let overlap_y := Z.max 0 (Z.min (y + h) (ey + eh) - Z.max y ey) in
  overlap_x * overlap_y.

(** [(overlap_x * overlap_y) / (w * h) > 0.5] *)
Definition overlaps (b e : box) : res bool :=
  let wh := bw b * bh b in
  if wh =? 0 then Err ZeroDivisionError
  else Ok (Qlt_b (1 # 2) (inject_Z (overlap_area b e) / inject_Z wh)).

Section TryDetection.

(** The contours of [cv2.findContours] on the dilated Canny edges, with the
    OpenCV measures the filter reads. *)
Variable contour : Type.
Variable contourArea : contour -> Q.
(** [len(cv2.approxPolyDP(cnt, 0.02 * cv2.arcLength(cnt, True), True))] *)
Variable approx_len : contour -> nat.
Variable boundingRect : contour -> box.

(** The [for existing in cell_contours] loop with its [break]. *)
Fixpoint is_unique (b : box) (existing : list contour) : res bool :=
  match existing with
  | [] => Ok true
  | e :: rest =>
      let* gt := overlaps b (boundingRect e) in
      if gt then Ok false else is_unique b rest
  end.

(** The [for cnt in contours] loop (lines 94-113), appending to
    [cell_contours]. *)
Fixpoint filter_contours (min_area max_area aspect_min aspect_max : Q)
    (contours cell_contours : list contour) : res (list contour) :=
  match contours with
  | [] => Ok cell_contours
  | cnt :: rest =>
      let area := contourArea cnt in
      if Qlt_b min_area area && Qlt_b area max_area then
        if (approx_len cnt =? 4)%nat then
          let b := boundingRect cnt in
          if bh b =? 0 then Err ZeroDivisionError
          else
            let aspect_ratio := (inject_Z (bw b) / inject_Z (bh b))%Q in
            if Qlt_b aspect_min aspect_ratio && Qlt_b aspect_ratio aspect_max then
              let* unique := is_unique b cell_contours in
              filter_contours min_area max_area aspect_min aspect_max rest
                (if unique then cell_contours ++ [cnt] else cell_contours)
            else filter_contours min_area max_area aspect_min aspect_max rest cell_contours
        else filter_contours min_area max_area aspect_min aspect_max rest cell_contours
      else filter_contours min_area max_area aspect_min aspect_max rest cell_contours
  end.

(** [_try_detection] (lines 61-115) on an image of [H] rows and [W] columns
    whose contour pass found [contours]. *)
Definition try_detection (H W : Z) (contours : list contour)
    (area_min_pct area_max_pct aspect_min aspect_max : Q) : res (list box) :=
  let min_area := (inject_Z H * inject_Z W * area_min_pct)%Q in
  let max_area := (inject_Z H * inject_Z W * area_max_pct)%Q in
  let* cell_contours := filter_contours min_area max_area aspect_min aspect_max contours [] in
  Ok (map boundingRect cell_contours).

End TryDetection.

End Contours.

(* ------------------------------------------------------------------------- *)
(** * [detect_text_regions] *)

Module TextRegions.
Import Grid Merge.

(** [min(l)] and [max(l)] of floats. *)
Definition Qmin_list (l : list Q) : res Q :=
  match l with
  | [] => Err (ValueError "min() arg is an empty sequence")
  | q :: r => Ok (fold_left Qmin r q)
  end.
Definition Qmax (a b : Q) : Q := if Qle_bool a b then b else a.
Definition Qmax_list (l : list Q) : res Q :=
  match l with
  | [] => Err (ValueError "max() arg is an empty sequence")
  | q :: r => Ok (fold_left Qmax r q)
  end.

(** Lines 379-384: the [(x, y, w, h)] of EasyOCR's corner points. *)
Definition points_box (box_points : list (Q * Q)) : res box :=
  let* mnx := Qmin_list (map fst box_points) in
  let* mny := Qmin_list (map snd box_points) in
  let* mxx := Qmax_list (map fst box_points) in
  let* mxy := Qmax_list (map snd box_points) in
  let x := py_int mnx in
  let y := py_int mny in
  let w := py_int (mxx - inject_Z x) in
  let h := py_int (mxy - inject_Z y) in
  Ok (x, y, w, h).

Section Detect.

(** [cv2.mean(img[y : y + h, x : x + w])[:3]] *)
Variable mean_color : box -> Q * Q * Q.

(** The body of the [for box_points, text, conf in results] loop (lines
    375-411): [None] where it [continue]s. *)
Definition text_region (H W : Z) (result : list (Q * Q) * str * Q)
    : res (option region) :=
  let '(box_points, text, conf) := result in
  if Qlt_b conf (3 # 10) then Ok None
  else
    let* b := points_box box_points in
    if Qlt_b (inject_Z (bw b * bh b)) (inject_Z W * inject_Z H * (2 # 10000)) then Ok None
    else
      let '(cb, cg, cr) := mean_color b in
      let text := strip text in
      match text with
      | [] => Ok None
      | _ =>
          if existsb (str_eqb (lower text)) [s "vocab"; s "menu"] then Ok None
          else Ok (Some {| rbox := b; rtext := text; rconf := conf;
                           rcolor := (py_int cb, py_int cg, py_int cr) |})
      end.

Fixpoint text_regions (H W : Z) (results : list (list (Q * Q) * str * Q))
    : res (list region) :=
  match results with
  | [] => Ok []
  | r :: rest =>
      let* o := text_region H W r in
      let* tl := text_regions H W rest in
      Ok (match o with Some reg => reg :: tl | None => tl end)
  end.

(** [detect_text_regions] (lines 346-424) on an image of [H] rows and [W]
    columns where [reader.readtext] returned [results]. *)
Definition detect_text_regions (H W : Z) (results : list (list (Q * Q) * str * Q))
    : res (list region) :=
  let* text_regions := text_regions H W results in
  let* text_regions := merge_nearby_regions 10 text_regions in
  Ok (sort_by region_key_le text_regions).

End Detect.

End TextRegions.

(* ------------------------------------------------------------------------- *)
(** * [AACTree.add_page], [load_into_tree], [extract_texts] *)

Module Tree.
Import Grid Page Ext.

(** [AACTree]: [pages] is a dict, kept as an association list in insertion
    order; [root_id] is [Optional[str]]. *)
Record tree := { pages : list (str * page); root_id : option str }.

Definition empty_tree : tree := {| pages := []; root_id := None |}.

(** [d[k] = v]: an existing key keeps its place, a new one goes last. *)
Fixpoint dict_set (k : str) (v : page) (d : list (str * page)) : list (str * page) :=
  match d with
  | [] => [(k, v)]
  | (k', v') :: rest => if str_eqb k k' then (k', v) :: rest else (k', v') :: dict_set k v rest
  end.

Fixpoint dict_get (k : str) (d : list (str * page)) : option page :=
  match d with
  | [] => None
  | (k', v) :: rest => if str_eqb k k' then Some v else dict_get k rest
  end.

(** Truthiness of an [Optional[str]]. *)
Definition truthy_str (o : option str) : bool :=
  match o with Some (_ :: _) => true | _ => false end.

(** [AACTree.add_page] (tree_structure.py, lines 175-179). *)
Definition add_page (t : tree) (p : page) : tree :=
  {| pages := dict_set (pid p) p (pages t);
     root_id := if truthy_str (root_id t) then root_id t else Some (pid p) |}.

(** [PurePath.stem] *)
Definition stem (p : str) : str :=
  let nm := name p in
  let i := rfind_dot nm in
  if (0 <? i) && (i <? Z.of_nat (length nm) - 1) then firstn (Z.to_nat i) nm else nm.

(** [sub in t] on strings. *)
Fixpoint is_prefix (sub t : str) : bool :=
  match sub, t with
  | [], _ => true
  | c :: sub', d :: t' => Ascii.eqb c d && is_prefix sub' t'
  | _ :: _, [] => false
  end.

Fixpoint contains (sub t : str) : bool :=
  is_prefix sub t || match t with [] => false | _ :: t' => contains sub t' end.

(** Lines 665-670: the grid hints read off the file name. *)
Definition hints_of_stem (filename : str) : option Z * option Z :=
  if contains (s "24") filename then (Some 6, Some 4)
  else if contains (s "60") filename then (Some 6, Some 10)
  else (None, None).

Section Load.

Variable readtext : box -> res (list (str * Q)).
Variable mean_color : box -> Q * Q * Q.
Variable try_detection : Q * Q -> Q * Q -> list box.

(** [load_into_tree] (lines 656-679) on the image at [file_path], of [H]
    rows and [W] columns. *)
Definition load_into_tree (H W : Z) (file_path : str) : res tree :=
  let filename := stem file_path in
  let '(grid_rows, grid_cols) := hints_of_stem filename in
  let* page := create_page_from_screenshot readtext mean_color try_detection H W
                 (stem file_path) grid_rows grid_cols 0 in
  Ok (add_page empty_tree page).

(** [extract_texts] (lines 690-700). *)
Definition extract_texts (H W : Z) (file_path : str) : res (list str) :=
  let* page := create_page_from_screenshot readtext mean_color try_detection H W
                 (stem file_path) None None 0 in
  Ok (map label (filter (fun btn => match label btn with [] => false | _ => true end)
                        (buttons page))).

End Load.

End Tree.

Module Samples.
Import Grid.

(** A 3-row, 4-column board of 100x100 cells on a 300x400 image. *)
Definition board_3x4 : list box :=
  flat_map (fun y => map (fun x => (x, y, 100, 100)) [0; 100; 200; 300]) [0; 100; 200].

(** A contour pass that finds the twelve cells under every parameter. *)
Definition detect_board_3x4 (area aspect : Q * Q) : list box := board_3x4.

(** A 2x2 board of 100x100 cells on a 200x200 image. *)
Definition board_2x2 : list box :=
  [(0, 0, 100, 100); (100, 0, 100, 100); (0, 100, 100, 100); (100, 100, 100, 100)].

Definition detect_board_2x2 (area aspect : Q * Q) : list box := board_2x2.

(** A blank image: no contour at all. *)
Definition detect_blank (area aspect : Q * Q) : list box := [].

(** Three text fragments on one line (threshold 15): [a] and [b] differ
    too much in height, [a] and [c] merge, and the merged box then matches [b]. *)
Definition frag (x y w h : Z) (t : string) : Merge.region :=
  {| Merge.rbox := (x, y, w, h); Merge.rtext := s t; Merge.rconf := 1;
     Merge.rcolor := (0, 0, 0) |}.

Definition fragments : list Merge.region :=
  [frag 0 10 10 10 "a"; frag 6 10 10 17 "b"; frag 10 10 10 13 "c"].

(** An OCR reader that reads a toolbar label in the top strip of the image
    and "yes" elsewhere. *)
Definition read_toolbar (b : box) : res (list (Text.str * Q)) :=
  if by_ b <? 50 then Ok [(s "Toolbar", 9 # 10)] else Ok [(s "yes", 9 # 10)].

(** An OCR reader that reads punctuation and a double space in every cell. *)
Definition read_punct (b : box) : res (list (Text.str * Q)) :=
  Ok [(s "Hi!", 9 # 10); (s "a  b", 9 # 10)].

Definition grey (b : box) : Q * Q * Q := (128, 128, 128)%Q.

End Samples.

(* ========================================================================= *)
(** * Properties *)

Import Grid.

(** ** Generic facts: the stable sort, [range] *)

Lemma insert_by_length {A} (le : A -> A -> bool) x l :
  length (insert_by le x l) = S (length l).
Proof.
  induction l as [|y ys IH]; simpl; [reflexivity|].
  destruct (le x y); simpl; [reflexivity|]. now rewrite IH.
Qed.

Lemma sort_by_length {A} (le : A -> A -> bool) l :
  length (sort_by le l) = length l.
Proof.
  induction l as [|x xs IH]; simpl; [reflexivity|].
  now rewrite insert_by_length, IH.
Qed.

Lemma In_insert_by {A} (le : A -> A -> bool) x y l :
  In y (insert_by le x l) <-> y = x \/ In y l.
Proof.
  induction l as [|z zs IH]; simpl.
  - intuition.
  - destruct (le x z); simpl; [intuition|]. rewrite IH. intuition.
Qed.

Lemma In_sort_by {A} (le : A -> A -> bool) y l :
  In y (sort_by le l) <-> In y l.
Proof.
  induction l as [|x xs IH]; simpl; [reflexivity|].
  rewrite In_insert_by, IH. intuition.
Qed.

Lemma range_length n : length (range n) = Z.to_nat n.
Proof. unfold range. now rewrite length_map, length_seq. Qed.

Lemma In_range n k : In k (range n) <-> 0 <= k < n.
Proof.
  unfold range. rewrite in_map_iff. split.
  - intros [m [<- Hm]]. apply in_seq in Hm. lia.
  - intros Hk. exists (Z.to_nat k). split; [lia|]. apply in_seq. lia.
Qed.

Lemma NoDup_map_inj {A B} (f : A -> B) l :
  (forall x y, f x = f y -> x = y) -> NoDup l -> NoDup (map f l).
Proof.
  intros Hf Hl. induction Hl as [|x xs Hx Hxs IH]; simpl; constructor; [|exact IH].
  rewrite in_map_iff. intros [y [Hy Hin]]. apply Hf in Hy. subst. contradiction.
Qed.

Lemma NoDup_range n : NoDup (range n).
Proof.
  unfold range. apply NoDup_map_inj; [|apply seq_NoDup].
  intros x y E. lia.
Qed.

Lemma flat_map_length_const {A B} (f : A -> list B) n l :
  (forall x, length (f x) = n) -> length (flat_map f l) = (length l * n)%nat.
Proof.
  intros Hf. induction l as [|x xs IH]; simpl; [reflexivity|].
  rewrite length_app, Hf, IH. reflexivity.
Qed.

(** ** detect_grid: success with positive hints *)

Lemma linspace0_ok stop num : 0 <= num -> exists l, linspace0 stop num = Ok l.
Proof.
  intros Hn. unfold linspace0.
  destruct (num <? 0) eqn:E; [lia|].
  destruct (num =? 1); eauto.
Qed.

Lemma get_grid_position_ok H W gw gh b :
  0 <= gw + 1 -> 0 <= gh + 1 -> exists p, get_grid_position H W gw gh b = Ok p.
Proof.
  intros Hw Hh. unfold get_grid_position.
  destruct (linspace0_ok (inject_Z W) _ Hw) as [xe ->]. simpl.
  destruct (linspace0_ok (inject_Z H) _ Hh) as [ye ->]. simpl. eauto.
Qed.

Lemma position_boxes_ok H W gw gh used bs :
  0 <= gw + 1 -> 0 <= gh + 1 -> exists l, position_boxes H W gw gh used bs = Ok l.
Proof.
  intros Hw Hh. revert used.
  induction bs as [|b bs IH]; intros used; simpl; [eauto|].
  destruct (get_grid_position_ok H W gw gh b Hw Hh) as [p ->]. simpl.
  destruct (existsb (pos_eqb p) used); [apply IH|].
  destruct (IH (p :: used)) as [tl ->]. simpl. eauto.
Qed.

Lemma position_boxes_nonempty H W gw gh b bs l :
  position_boxes H W gw gh [] (b :: bs) = Ok l -> l <> [].
Proof.
  simpl. destruct (get_grid_position H W gw gh b) as [p|e]; simpl; [|discriminate].
  destruct (position_boxes H W gw gh [p] bs); simpl; [|discriminate].
  intros E. injection E as <-. discriminate.
Qed.

Lemma fallback_grid_length H W r c :
  0 <= r -> 0 <= c -> length (fallback_grid H W r c) = Z.to_nat (r * c).
Proof.
  intros Hr Hc. unfold fallback_grid.
  rewrite (flat_map_length_const _ (Z.to_nat c)).
  - rewrite range_length, Z2Nat.inj_mul by lia. reflexivity.
  - intros x. now rewrite length_map, range_length.
Qed.

Lemma select_boxes_hint tryd H W r c :
  0 < r -> 0 < c ->
  exists best, select_boxes tryd H W (Some r) (Some c) = Ok best /\ best <> [] /\
    (sweep tryd (Some r) (Some c) = [] -> best = fallback_grid H W r c).
Proof.
  intros Hr Hc. unfold select_boxes.
  destruct (sweep tryd (Some r) (Some c)) as [|b l] eqn:Es; simpl.
  - destruct (r =? 0) eqn:Er; [lia|]. destruct (c =? 0) eqn:Ec; [lia|]. simpl.
    pose proof (fallback_grid_length H W r c ltac:(lia) ltac:(lia)) as Hlen.
    destruct (fallback_grid H W r c) as [|f fs] eqn:Ef.
    + simpl in Hlen. nia.
    + exists (f :: fs). split; [reflexivity|]. split; [discriminate|]. auto.
  - exists (b :: l). split; [reflexivity|]. split; [discriminate|]. discriminate.
Qed.

(** C1 (amended). With both hints positive, [detect_grid] does not raise and
    returns a non-empty box list with [(grid_width, grid_height) = (cols,
    rows)]; when no parameter combination is accepted, the candidate boxes
    are the synthetic uniform grid, which has exactly [rows * cols] boxes. *)
Theorem detect_grid_positive_hint_nonempty tryd H W r c :
  0 < r -> 0 < c ->
  (exists bs, detect_grid tryd H W (Some r) (Some c) = Ok (c, r, bs) /\ bs <> []) /\
  (sweep tryd (Some r) (Some c) = [] ->
     select_boxes tryd H W (Some r) (Some c) = Ok (fallback_grid H W r c) /\
     length (fallback_grid H W r c) = Z.to_nat (r * c)).
Proof.
  intros Hr Hc.
  destruct (select_boxes_hint tryd H W r c Hr Hc) as [best [Hsel [Hne Hfb]]].
  split.
  - unfold detect_grid. rewrite Hsel. simpl.
    destruct (sort_by box_key_le best) as [|b bs] eqn:Es.
    + apply (f_equal (@length box)) in Es. rewrite sort_by_length in Es.
      destruct best; [congruence|discriminate].
    + destruct (position_boxes_ok H W c r [] (b :: bs) ltac:(lia) ltac:(lia))
        as [l Hl].
      rewrite Hl. simpl. eexists. split; [reflexivity|].
      apply position_boxes_nonempty in Hl.
      destruct (sort_by pos_key_le l) eqn:E2.
      * apply (f_equal (@length (box * (Z * Z)))) in E2.
        rewrite sort_by_length in E2. destruct l; [congruence|discriminate].
      * discriminate.
  - intros Hs. rewrite Hsel, (Hfb Hs). split; [reflexivity|].
    apply fallback_grid_length; lia.
Qed.

(** C1, counterexample. A blank image (no contour passes any combination):
    with the non-zero hints [rows = cols = -1] the fallback loop is empty and
    [detect_grid] raises the no-cells error; and on a 1x1 image with
    [rows = cols = 2] the four synthetic boxes all map to position (0, 0),
    so one box is returned instead of four. *)
Lemma detect_grid_nonzero_hint_counterexample :
  detect_grid (fun _ _ => []) 100 90 (Some (-1)) (Some (-1)) =
    Err (ValueError "No cells detected in image") /\
  detect_grid (fun _ _ => []) 1 1 (Some 2) (Some 2) = Ok (2, 2, [(0, 0, 0, 0)]).
Proof. split; vm_compute; reflexivity. Qed.

(** A witness of C1 at a blank 100x90 image with a 4x3 hint. *)
Lemma detect_grid_positive_hint_nonempty_witness :
  0 < 4 /\ 0 < 3 /\
  ((exists bs, detect_grid (fun _ _ => []) 100 90 (Some 4) (Some 3) = Ok (3, 4, bs) /\
               bs <> []) /\
   (sweep (fun _ _ => []) (Some 4) (Some 3) = [] ->
      select_boxes (fun _ _ => []) 100 90 (Some 4) (Some 3) =
        Ok (fallback_grid 100 90 4 3) /\
      length (fallback_grid 100 90 4 3) = Z.to_nat (4 * 3))).
Proof.
  split; [lia|]. split; [lia|].
  apply (detect_grid_positive_hint_nonempty (fun _ _ => []) 100 90 4 3); lia.
Defined.

(** ** detect_grid: the sweep *)

Import Sweep.

Lemma accepts_nonempty rows cols bs : accepts rows cols bs = true -> bs <> [].
Proof. destruct bs; simpl; [discriminate|]. intros _. discriminate. Qed.

Lemma first_accepted_app tryd rows cols l1 l2 :
  first_accepted tryd rows cols (l1 ++ l2) =
  match first_accepted tryd rows cols l1 with
  | [] => first_accepted tryd rows cols l2
  | best => best
  end.
Proof.
  induction l1 as [|[area asp] l1 IH]; simpl; [reflexivity|].
  destruct (accepts rows cols (tryd area asp)) eqn:E; [|exact IH].
  apply accepts_nonempty in E. destruct (tryd area asp); [congruence|reflexivity].
Qed.

Lemma sweep_aspects_first tryd rows cols area asps :
  sweep_aspects tryd rows cols area asps =
  first_accepted tryd rows cols (map (fun asp => (area, asp)) asps).
Proof.
  induction asps as [|asp asps IH]; simpl; [reflexivity|].
  now rewrite IH.
Qed.

Lemma sweep_areas_first tryd rows cols areas :
  sweep_areas tryd rows cols areas =
  first_accepted tryd rows cols
    (flat_map (fun area => map (fun asp => (area, asp)) aspect_ranges) areas).
Proof.
  induction areas as [|area areas IH]; [reflexivity|].
  cbn [sweep_areas flat_map].
  rewrite first_accepted_app, <- sweep_aspects_first, IH.
  destruct (sweep_aspects tryd rows cols area aspect_ranges); reflexivity.
Qed.

Lemma half_le_iff a n :
  Qle_bool (inject_Z a * (1 # 2)) (inject_Z n) = true <-> a <= 2 * n.
Proof. rewrite Qle_bool_iff. unfold Qle; cbn [Qnum Qden inject_Z Qmult]. lia. Qed.

Lemma accepts_iff rows cols bs :
  accepts rows cols bs = true <-> bs <> [] /\ threshold_met rows cols (length bs).
Proof.
  destruct bs as [|b bs'].
  { simpl. split; [discriminate|]. intros [H _]. now exfalso. }
  set (bs := b :: bs').
  assert (Hne : bs <> []) by discriminate.
  unfold accepts, threshold_met. fold bs.
  destruct rows as [r|], cols as [c|]; simpl; rewrite ?andb_false_r;
    try (rewrite Z.leb_le; tauto).
  destruct (r =? 0) eqn:Er, (c =? 0) eqn:Ec; simpl;
    try (rewrite Z.leb_le; tauto).
  unfold expected_cells. rewrite half_le_iff. tauto.
Qed.

(** C4 (amended). [detect_grid]'s nested loops take the first
    (area range, aspect range) combination, in the fixed order of [combos]
    (area ranges outer, aspect ranges inner), whose boxes are accepted; a box
    list is accepted exactly when it is non-empty and has at least half of
    [rows * cols] boxes when both hints are given and non-zero, and at least
    12 boxes otherwise. *)
Theorem sweep_first_accepted tryd rows cols :
  sweep tryd rows cols = first_accepted tryd rows cols (combos rows cols) /\
  (forall bs, accepts rows cols bs = true <->
              bs <> [] /\ threshold_met rows cols (length bs)).
Proof.
  split; [apply sweep_areas_first|]. intros bs. apply accepts_iff.
Qed.

(** C4, counterexample. The order is not from most restrictive to most
    permissive: with or without hints, the second combination tried lies
    strictly inside the first (its aspect range 0.5-2.0 is inside 0.2-5.0). *)
Lemma sweep_order_counterexample :
  let d := ((0, 0), (0, 0))%Q in
  combo_within (nth 1 (combos (Some 4) (Some 3)) d) (nth 0 (combos (Some 4) (Some 3)) d) /\
  ~ combo_within (nth 0 (combos (Some 4) (Some 3)) d) (nth 1 (combos (Some 4) (Some 3)) d) /\
  combo_within (nth 1 (combos None None) d) (nth 0 (combos None None) d) /\
  ~ combo_within (nth 0 (combos None None) d) (nth 1 (combos None None) d).
Proof.
  cbv [combos area_ranges is_some area_ranges_hint area_ranges_nohint aspect_ranges
       flat_map map app nth andb combo_within range_within fst snd].
  unfold Qle; cbn [Qnum Qden]. lia.
Qed.

(** ** find_clusters *)

(** The dimension inference in the words of the spec: one plus the number
    of consecutive gaps of the sorted coordinates that exceed both 1.2 times
    the median gap and 0.8 times the mean gap; 0 without coordinates. *)
Definition inferred_dimension (coords : list Q) : Z :=
  match coords with
  | [] => 0
  | _ =>
      let sorted := sort_Q coords in
      let gaps := map (fun ab => (snd ab - fst ab)%Q) (combine sorted (tl sorted)) in
      let boundary := fun g => Qlt_b (median gaps * (6 # 5)) g
                               && Qlt_b (mean gaps * (4 # 5)) g in
      1 + Z.of_nat (length (filter boundary gaps))
  end.

Lemma diff_combine (l : list Q) :
  diff l = map (fun ab => (snd ab - fst ab)%Q) (combine l (tl l)).
Proof.
  induction l as [|a l IH]; [reflexivity|].
  destruct l as [|b l]; [reflexivity|].
  change (diff (a :: b :: l)) with ((b - a)%Q :: diff (b :: l)).
  rewrite IH. reflexivity.
Qed.

Lemma filter_map_S (p : nat -> bool) (l : list nat) :
  filter p (map S l) = map S (filter (fun i => p (S i)) l).
Proof.
  induction l as [|x l IH]; simpl; [reflexivity|].
  destruct (p (S x)); simpl; now rewrite IH.
Qed.

Lemma filter_indices_length {A} (f : A -> bool) (l : list A) (d : A) :
  length (filter (fun i => f (nth i l d)) (seq 0 (length l))) = length (filter f l).
Proof.
  induction l as [|x l IH]; [reflexivity|].
  cbn [length seq]. rewrite <- seq_shift. cbn [filter nth].
  rewrite filter_map_S. cbn [nth].
  destruct (f x); cbn [length]; rewrite length_map, IH; reflexivity.
Qed.

(** C8. When no dimensions are supplied, [detect_grid] infers each axis
    dimension from the centres of the selected boxes as one plus the number of
    consecutive sorted-centre gaps exceeding both 1.2 times the median gap and
    0.8 times the mean gap; [find_clusters] of no coordinates is 0. *)
Theorem detect_grid_inferred_dimensions tryd H W gw gh bs :
  detect_grid tryd H W None None = Ok (gw, gh, bs) ->
  find_clusters [] = 0 /\
  exists best, select_boxes tryd H W None None = Ok best /\
    gw = inferred_dimension (map center_x (sort_by box_key_le best)) /\
    gh = inferred_dimension (map center_y (sort_by box_key_le best)).
Proof.
  assert (Hfc : forall coords, find_clusters coords = inferred_dimension coords).
  { intros [|c cs]; [reflexivity|].
    unfold find_clusters, inferred_dimension. cbv zeta.
    rewrite <- diff_combine. set (ds := diff (sort_Q (c :: cs))).
    rewrite (filter_indices_length
               (fun d => Qlt_b (median ds * (6 # 5)) d && Qlt_b (mean ds * (4 # 5)) d)).
    lia. }
  unfold detect_grid.
  destruct (select_boxes tryd H W None None) as [best|e]; simpl; [|discriminate].
  destruct (position_boxes H W _ _ [] _); simpl; [|discriminate].
  intros E. injection E as <- <- _.
  split; [reflexivity|]. exists best. rewrite !Hfc. auto.
Qed.

(** A witness of C8 on the 3x4 board: 4 columns and 3 rows are inferred. *)
Lemma detect_grid_inferred_dimensions_witness :
  exists bs, detect_grid Samples.detect_board_3x4 300 400 None None = Ok (4, 3, bs) /\
  (find_clusters [] = 0 /\
   exists best, select_boxes Samples.detect_board_3x4 300 400 None None = Ok best /\
     4 = inferred_dimension (map center_x (sort_by box_key_le best)) /\
     3 = inferred_dimension (map center_y (sort_by box_key_le best))).
Proof.
  eexists. split; [vm_compute; reflexivity|].
  eapply (detect_grid_inferred_dimensions Samples.detect_board_3x4 300 400 4 3).
  vm_compute. reflexivity.
Defined.

(** ** detect_cell_content *)

Lemma cleanup_short (t : str) :
  Cell.cleanup t = [] \/ (2 <= length (Cell.cleanup t))%nat.
Proof.
  unfold Cell.cleanup. cbv zeta.
  destruct (length (strip (Cell.collapse_ws false (filter Cell.allowed t))) <? 2)%nat eqn:E;
    simpl; [now left|].
  destruct (isspace _); [now left|]. right. apply Nat.ltb_ge in E. exact E.
Qed.

Lemma ocr_text_short image ocr (scaled : image) t :
  Cell.ocr_text image ocr scaled = Some t -> t = [] \/ (2 <= length t)%nat.
Proof.
  unfold Cell.ocr_text.
  destruct (ocr 8 scaled) as [t8|]; [|discriminate].
  destruct (strip t8) as [|c r].
  - destruct (ocr 7 scaled) as [t7|]; [|discriminate].
    intros E. injection E as <-. apply cleanup_short.
  - intros E. injection E as <-. apply cleanup_short.
Qed.

(** C9. Once the crop has been preprocessed, [detect_cell_content] returns
    (never raises) with the integer parts of the average colour; when the
    OCR step raises, the text is empty; and a non-empty text has at least
    two characters (shorter cleaned texts are replaced by the empty string). *)
Theorem detect_cell_content_recovers image preprocess ocr avg (scaled : image) :
  preprocess = Ok (avg, scaled) ->
  exists r, Cell.detect_cell_content image preprocess ocr = Ok r /\
    (Cell.color_b r, Cell.color_g r, Cell.color_r r) =
      (py_int (fst (fst avg)), py_int (snd (fst avg)), py_int (snd avg)) /\
    (Cell.ocr_fails image ocr scaled -> Cell.text r = []) /\
    (Cell.text r = [] \/ (2 <= length (Cell.text r))%nat).
Proof.
  intros Hp. unfold Cell.detect_cell_content. rewrite Hp. simpl.
  destruct avg as [[b g] r]. simpl.
  eexists. split; [reflexivity|]. simpl. split; [reflexivity|]. split.
  - intros [H8 | [t [H8 [Hs H7]]]]; unfold Cell.ocr_text; rewrite H8; [reflexivity|].
    rewrite Hs, H7. reflexivity.
  - destruct (Cell.ocr_text image ocr scaled) as [t|] eqn:E; [|now left].
    eapply ocr_text_short; eauto.
Qed.

(** A witness of C9: a crop whose OCR raises. *)
Lemma detect_cell_content_recovers_witness :
  (Ok ((10, 20, 30)%Q, tt) : res ((Q * Q * Q) * unit)) = Ok ((10, 20, 30)%Q, tt) /\
  exists r, Cell.detect_cell_content unit (Ok ((10, 20, 30)%Q, tt)) (fun _ _ => None) = Ok r /\
    (Cell.color_b r, Cell.color_g r, Cell.color_r r) = (10, 20, 30) /\
    (Cell.ocr_fails unit (fun _ _ => None) tt -> Cell.text r = []) /\
    (Cell.text r = [] \/ (2 <= length (Cell.text r))%nat).
Proof.
  split; [reflexivity|].
  apply (detect_cell_content_recovers unit (Ok ((10, 20, 30)%Q, tt)) (fun _ _ => None)
           (10, 20, 30)%Q tt).
  reflexivity.
Defined.

(** ** merge_nearby_regions *)

Import Merge.

Lemma Qlt_b_true a b : Qlt_b a b = true -> (a < b)%Q.
Proof.
  unfold Qlt_b. intros E. apply negb_true_iff in E.
  apply Qnot_le_lt. intros Hle. apply Qle_bool_iff in Hle. congruence.
Qed.

Lemma Qlt_b_false a b : Qlt_b a b = false -> (b <= a)%Q.
Proof.
  unfold Qlt_b. intros E. apply negb_false_iff in E. now apply Qle_bool_iff.
Qed.

Lemma join_text_spec t1 t2 t :
  join_text t1 t2 = Ok t ->
  t = if ends_alnum t1 && starts_alnum t2 then t1 ++ " "%char :: t2 else t1 ++ t2.
Proof.
  unfold join_text, last_char, ends_alnum.
  destruct (rev t1) as [|c1 r1]; simpl; [discriminate|].
  destruct (is_alnum c1); simpl.
  - unfold first_char, starts_alnum. destruct t2 as [|c2 r2]; simpl; [discriminate|].
    destruct (is_alnum c2); congruence.
  - congruence.
Qed.

Lemma try_merge_spec thr cur other m :
  try_merge thr cur other = Ok (Some m) -> merge_step_spec thr cur other m.
Proof.
  unfold try_merge, merge_step_spec.
  destruct cur as [[[[x1 y1] w1] h1] t1 c1 col1].
  destruct other as [[[[x2 y2] w2] h2] t2 c2 col2]. simpl.
  destruct (Z.max h1 h2 =? 0); [discriminate|].
  destruct (Qlt_b _ (7 # 10)) eqn:Er; [discriminate|].
  apply Qlt_b_false in Er.
  destruct (Qlt_b (inject_Z (Z.abs (y1 - y2))) (inject_Z h1 / 3)) eqn:E1; simpl;
    [|discriminate].
  destruct (Qlt_b (inject_Z (Z.abs (y1 + h1 - (y2 + h2)))) (inject_Z h1 / 3)) eqn:E2;
    simpl; [|discriminate].
  destruct (Qlt_b (inject_Z (Z.abs (x1 + w1 - x2))) (inject_Z thr)) eqn:E3;
    simpl; [|discriminate].
  apply Qlt_b_true in E1, E2, E3.
  destruct (join_text t1 t2) as [t|] eqn:Ej; simpl; [|discriminate].
  apply join_text_spec in Ej.
  intros E. injection E as <-. simpl.
  repeat split; auto.
  unfold Qlt in E3. simpl in E3. lia.
Qed.

Lemma merge_into_spec thr rs js : forall cur used m used',
  merge_into thr cur used js = Ok (m, used') ->
  merged_from thr rs cur ->
  (forall j o, In (j, o) js -> In o rs) ->
  merged_from thr rs m.
Proof.
  induction js as [|[j o] js IH]; intros cur used m used' E Hcur Hjs; simpl in E.
  - injection E as <- _. exact Hcur.
  - assert (Hrest : forall j' o', In (j', o') js -> In o' rs)
      by (intros j' o' Hin; apply (Hjs j'); now right).
    destruct (existsb (Nat.eqb j) used); [eapply IH; eauto|].
    destruct (try_merge thr cur o) as [[m1|]|e] eqn:Et; simpl in E; [| |discriminate].
    + eapply IH; [exact E| |exact Hrest].
      apply mf_step with (cur := cur) (other := o); [exact Hcur| |].
      * apply (Hjs j). now left.
      * now apply try_merge_spec.
    + eapply IH; eauto.
Qed.

Lemma merge_loop_spec thr rs items : forall used out,
  merge_loop thr items used = Ok out ->
  (forall i r, In (i, r) items -> In r rs) ->
  forall m, In m out -> merged_from thr rs m.
Proof.
  induction items as [|[i r] items IH]; intros used out E Hitems m Hm; simpl in E.
  - injection E as <-. destruct Hm.
  - assert (Hrest : forall i' r', In (i', r') items -> In r' rs)
      by (intros i' r' Hin; apply (Hitems i'); now right).
    destruct (existsb (Nat.eqb i) used); [eapply IH; eauto|].
    destruct (merge_into thr r used items) as [[m1 used1]|e] eqn:Ei; simpl in E;
      [|discriminate].
    destruct (merge_loop thr items (i :: used1)) as [tl|e] eqn:El; simpl in E;
      [|discriminate].
    injection E as <-. destruct Hm as [<- | Hm].
    + eapply merge_into_spec; [exact Ei| |exact Hrest].
      apply mf_input. apply (Hitems i). now left.
    + eapply IH; eauto.
Qed.

(** C6. Every region returned by [merge_nearby_regions] is an input region or
    is built from one by merge steps, each with an input region: the pair met
    the eligibility test (height ratio at least 0.7, top and bottom edges
    within a third of the first region's height, horizontal gap below the
    threshold); the merged box is the bounding-box union, the texts are joined
    with a space exactly when the adjoining characters are both alphanumeric,
    and the confidence is the minimum of the two. *)
Theorem merge_nearby_regions_steps thr rs out :
  merge_nearby_regions thr rs = Ok out ->
  forall m, In m out -> merged_from thr rs m.
Proof.
  unfold merge_nearby_regions. destruct rs as [|r0 rs0] eqn:Ers.
  - intros E. injection E as <-. intros m [].
  - rewrite <- Ers. intros E. eapply merge_loop_spec; [exact E|].
    intros i r Hin. unfold enumerate in Hin. apply in_combine_r in Hin.
    now apply In_sort_by in Hin.
Qed.

(** A witness of C6 on the sample fragments. *)
Lemma merge_nearby_regions_steps_witness :
  exists out, merge_nearby_regions 15 Samples.fragments = Ok out /\
    forall m, In m out -> merged_from 15 Samples.fragments m.
Proof.
  eexists. split; [vm_compute; reflexivity|].
  eapply (merge_nearby_regions_steps 15 Samples.fragments). vm_compute. reflexivity.
Defined.

Lemma merge_loop_length thr items : forall used out,
  merge_loop thr items used = Ok out -> (length out <= length items)%nat.
Proof.
  induction items as [|[i r] items IH]; intros used out E; simpl in E.
  - injection E as <-. reflexivity.
  - destruct (existsb (Nat.eqb i) used).
    + apply IH in E. simpl. lia.
    + destruct (merge_into thr r used items) as [mu|e]; simpl in E; [|discriminate].
      destruct (merge_loop thr items (i :: snd mu)) as [tl|e] eqn:El; simpl in E;
        [|discriminate].
      injection E as <-. apply IH in El. simpl. lia.
Qed.

(** C7 (amended). A pass of [merge_nearby_regions] never increases the
    number of regions, so re-running it on its own output returns at most
    as many regions (but possibly fewer: it is not idempotent). *)
Theorem merge_nearby_regions_length thr rs out :
  merge_nearby_regions thr rs = Ok out -> (length out <= length rs)%nat.
Proof.
  unfold merge_nearby_regions. destruct rs as [|r0 rs0] eqn:Ers.
  - intros E. injection E as <-. reflexivity.
  - rewrite <- Ers. intros E. apply merge_loop_length in E.
    unfold enumerate in E. rewrite length_combine, length_seq, Nat.min_id in E.
    now rewrite sort_by_length in E.
Qed.

(** A witness of C7 on the sample fragments. *)
Lemma merge_nearby_regions_length_witness :
  exists out, merge_nearby_regions 15 Samples.fragments = Ok out /\
    (length out <= length Samples.fragments)%nat.
Proof.
  eexists. split; [vm_compute; reflexivity|].
  eapply (merge_nearby_regions_length 15 Samples.fragments). vm_compute. reflexivity.
Defined.

(** C7, counterexample. On the sample fragments the first pass merges [a]
    with [c] and keeps [b]; a second pass on that output merges [b] into the
    grown box, so the output is not a fixed point. *)
Lemma merge_not_idempotent :
  exists out out2,
    merge_nearby_regions 15 Samples.fragments = Ok out /\
    merge_nearby_regions 15 out = Ok out2 /\
    out2 <> out /\ length out = 2%nat /\ length out2 = 1%nat.
Proof.
  do 2 eexists. split; [vm_compute; reflexivity|].
  split; [vm_compute; reflexivity|].
  split; [discriminate|]. split; reflexivity.
Qed.

(** ** create_page_from_screenshot: positions *)

Import Page.

(** Peel one [let*] off a hypothesis [bind m k = Ok x]. *)
Ltac peel_ok H :=
  match type of H with
  | bind ?m _ = Ok _ =>
      let E := fresh "E" in
      destruct m eqn:E; cbn [bind] in H; [|discriminate H]
  end.

(** The cells whose OCR fragments survive the filter. *)
Definition kept_cell (readtext : box -> res (list (str * Q))) (area : Z -> Z -> box)
    (p : Z * Z) : bool :=
  match readtext (area (fst p) (snd p)) with
  | Ok results => match cell_texts results with [] => false | _ => true end
  | Err _ => false
  end.

Lemma fill_cells_positions readtext mean_color area cells : forall btns out,
  fill_cells readtext mean_color area cells btns = Ok out ->
  map position out = map position btns ++ filter (kept_cell readtext area) cells.
Proof.
  induction cells as [|[row col] cells IH]; intros btns out E; simpl in E.
  - injection E as <-. now rewrite app_nil_r.
  - unfold kept_cell at 1. simpl.
    destruct (readtext (area row col)) as [results|e]; simpl in E; [|discriminate].
    destruct (cell_texts results) as [|t ts].
    + now apply IH.
    + apply IH in E. rewrite E, map_app, <- app_assoc. reflexivity.
Qed.

Lemma In_grid_cells rows cols row col :
  In (row, col) (grid_cells rows cols) -> 0 <= row < rows /\ 0 <= col < cols.
Proof.
  unfold grid_cells. rewrite in_flat_map. intros [r [Hr Hin]].
  rewrite in_map_iff in Hin. destruct Hin as [c [E Hc]]. injection E as <- <-.
  apply In_range in Hr, Hc. auto.
Qed.

Lemma NoDup_grid_cells rows cols : NoDup (grid_cells rows cols).
Proof.
  unfold grid_cells. pose proof (NoDup_range rows) as Hr.
  pose proof (NoDup_range cols) as Hc.
  induction Hr as [|r rs Hnin Hrs IH]; simpl; [constructor|].
  apply NoDup_app; [| exact IH |].
  - apply NoDup_map_inj; [|exact Hc]. intros x y E. now injection E.
  - intros [a b] Hin1 Hin2. apply in_map_iff in Hin1. destruct Hin1 as [c [E _]].
    injection E as <- _. apply in_flat_map in Hin2.
    destruct Hin2 as [r' [Hr' Hin]]. apply in_map_iff in Hin.
    destruct Hin as [c' [E _]]. injection E as <- _. contradiction.
Qed.

Lemma create_page_fill readtext mean_color tryd H W stem rows cols ign page :
  create_page_from_screenshot readtext mean_color tryd H W stem rows cols ign = Ok page ->
  exists area, fill_cells readtext mean_color area
                 (grid_cells (fst (grid_size page)) (snd (grid_size page))) [] =
               Ok (buttons page).
Proof.
  unfold create_page_from_screenshot. intros Hp.
  peel_ok Hp. destruct a as [[dc dr] boxes].
  destruct (_ || _); [discriminate|].
  peel_ok Hp. peel_ok Hp. peel_ok Hp. peel_ok Hp. peel_ok Hp.
  injection Hp as <-. simpl. eexists. eassumption.
Qed.

(** C2. Every button of a page returned by [create_page_from_screenshot]
    lies inside [grid_size], and no two buttons share a position. *)
Theorem create_page_grid_invariant readtext mean_color tryd H W stem rows cols ign page :
  create_page_from_screenshot readtext mean_color tryd H W stem rows cols ign = Ok page ->
  (forall b, In b (buttons page) ->
     0 <= fst (position b) < fst (grid_size page) /\
     0 <= snd (position b) < snd (grid_size page)) /\
  NoDup (map position (buttons page)).
Proof.
  intros Hp. apply create_page_fill in Hp. destruct Hp as [area Hf].
  apply fill_cells_positions in Hf. simpl in Hf. split.
  - intros b Hb. apply (in_map position) in Hb. rewrite Hf in Hb.
    apply filter_In in Hb. destruct Hb as [Hb _].
    destruct (position b) as [row col]. now apply In_grid_cells.
  - rewrite Hf. apply NoDup_filter, NoDup_grid_cells.
Qed.

(** A witness of C2 on the 2x2 board. *)
Lemma create_page_grid_invariant_witness :
  exists page,
    create_page_from_screenshot Samples.read_toolbar Samples.grey Samples.detect_board_2x2
      200 200 (s "shot") (Some 2) (Some 2) 0 = Ok page /\
    (forall b, In b (buttons page) ->
       0 <= fst (position b) < fst (grid_size page) /\
       0 <= snd (position b) < snd (grid_size page)) /\
    NoDup (map position (buttons page)).
Proof.
  eexists. split; [vm_compute; reflexivity|].
  eapply (create_page_grid_invariant Samples.read_toolbar Samples.grey
            Samples.detect_board_2x2 200 200 (s "shot") (Some 2) (Some 2) 0).
  vm_compute. reflexivity.
Defined.

(** ** create_page_from_screenshot: labels *)

Lemma lstrip_starts t : lstrip t <> [] -> starts_ok (lstrip t) = true.
Proof.
  induction t as [|c r IH]; simpl; [congruence|].
  destruct (is_space c) eqn:E; [exact IH|]. intros _. simpl. now rewrite E.
Qed.

Lemma lstrip_suffix t : exists pre, t = pre ++ lstrip t.
Proof.
  induction t as [|c r [pre IH]]; simpl; [now exists []|].
  destruct (is_space c); [exists (c :: pre); simpl; now f_equal|now exists []].
Qed.

Lemma strip_ok t : strip t <> [] -> starts_ok (strip t) = true /\ ends_ok (strip t) = true.
Proof.
  unfold strip, rstrip. intros Hne. split.
  - destruct (lstrip_suffix (rev (lstrip t))) as [pre Hpre].
    assert (Hw : lstrip t = rev (lstrip (rev (lstrip t))) ++ rev pre).
    { rewrite <- rev_app_distr, <- Hpre. now rewrite rev_involutive. }
    destruct (rev (lstrip (rev (lstrip t)))) as [|c r] eqn:Er; [congruence|].
    assert (Hl : lstrip t <> []) by (rewrite Hw; discriminate).
    pose proof (lstrip_starts t Hl) as Hs. rewrite Hw in Hs. exact Hs.
  - unfold ends_ok. rewrite rev_involutive. apply lstrip_starts.
    intros E. apply Hne. now rewrite E.
Qed.

Lemma starts_ok_app t u : starts_ok t = true -> starts_ok (t ++ u) = true.
Proof. destruct t; simpl; [discriminate|auto]. Qed.

Lemma ends_ok_app t u : ends_ok u = true -> ends_ok (t ++ u) = true.
Proof. unfold ends_ok. rewrite rev_app_distr. apply starts_ok_app. Qed.

Lemma join_ok sep parts :
  parts <> [] -> Forall (fun p => starts_ok p = true /\ ends_ok p = true) parts ->
  starts_ok (join sep parts) = true /\ ends_ok (join sep parts) = true.
Proof.
  intros Hne Hall. induction Hall as [|p ps [Hs He] Hps IH]; [congruence|].
  destruct ps as [|q qs]; [simpl; auto|].
  change (join sep (p :: q :: qs)) with (p ++ sep ++ join sep (q :: qs)).
  destruct (IH ltac:(discriminate)) as [_ He'].
  split; [now apply starts_ok_app|]. now apply ends_ok_app, ends_ok_app.
Qed.

Lemma cell_texts_ok results :
  Forall (fun p => starts_ok p = true /\ ends_ok p = true) (cell_texts results).
Proof.
  unfold cell_texts. apply Forall_forall. intros t Ht.
  apply in_flat_map in Ht. destruct Ht as [[text conf] [_ Ht]].
  destruct (Qlt_b conf (3 # 10)); [destruct Ht|].
  destruct (strip text) as [|c r] eqn:Es; [destruct Ht|].
  destruct (existsb _ _); [destruct Ht|]. destruct Ht as [<- | []].
  rewrite <- Es. apply strip_ok. congruence.
Qed.

Lemma fill_cells_labels readtext mean_color area cells : forall btns out,
  fill_cells readtext mean_color area cells btns = Ok out ->
  forall b, In b out -> In b btns \/
    (starts_ok (label b) = true /\ ends_ok (label b) = true).
Proof.
  induction cells as [|[row col] cells IH]; intros btns out E b Hb; simpl in E.
  - injection E as <-. now left.
  - destruct (readtext (area row col)) as [results|e]; simpl in E; [|discriminate].
    pose proof (cell_texts_ok results) as Hok.
    destruct (cell_texts results) as [|t ts] eqn:Ec; [eapply IH; eauto|].
    destruct (IH _ _ E b Hb) as [Hin | Hlab]; [|now right].
    apply in_app_or in Hin. destruct Hin as [Hin | [<- | []]]; [now left|].
    right. pose proof (join_ok [" "%char] (t :: ts) ltac:(discriminate) Hok) as Hj.
    simpl in Hj |- *. exact Hj.
Qed.

(** The fragments the amended C3 keeps, in its own words: the EasyOCR
    results with confidence at least 0.3, each stripped, that are non-empty
    and are not 'vocab' or 'menu' in any letter case. *)
Definition kept_fragments (results : list (str * Q)) : list str :=
  map (fun p => strip (fst p))
    (filter (fun p => Qle_bool (3 # 10) (snd p) && negb (str_eqb (strip (fst p)) []) &&
                      negb (str_eqb (lower (strip (fst p))) (s "vocab")) &&
                      negb (str_eqb (lower (strip (fst p))) (s "menu"))) results).

Lemma cell_texts_kept results : cell_texts results = kept_fragments results.
Proof.
  unfold cell_texts, kept_fragments.
  induction results as [|[text conf] results IH]; [reflexivity|].
  cbn [flat_map filter fst snd]. rewrite IH. unfold Qlt_b.
  destruct (Qle_bool (3 # 10) conf); cbn [negb andb]; [|reflexivity].
  destruct (strip text) as [|c r] eqn:Es; [reflexivity|]. cbn [str_eqb negb andb existsb].
  destruct (str_eqb (lower (c :: r)) (s "vocab")), (str_eqb (lower (c :: r)) (s "menu"));
    cbn [orb negb andb filter map app fst]; rewrite ?Es; reflexivity.
Qed.

Lemma fill_cells_label_source readtext mean_color area cells : forall btns out,
  fill_cells readtext mean_color area cells btns = Ok out ->
  forall b, In b out -> In b btns \/
    exists results, readtext (area (fst (position b)) (snd (position b))) = Ok results /\
      cell_texts results <> [] /\ label b = join [" "%char] (cell_texts results).
Proof.
  induction cells as [|[row col] cells IH]; intros btns out E b Hb; simpl in E.
  - injection E as <-. now left.
  - destruct (readtext (area row col)) as [results|e] eqn:Er; simpl in E; [|discriminate].
    destruct (cell_texts results) as [|t ts] eqn:Ec; [eapply IH; eauto|].
    destruct (IH _ _ E b Hb) as [Hin | Hlab]; [|now right].
    apply in_app_or in Hin. destruct Hin as [Hin | [<- | []]]; [now left|].
    right. exists results. cbn [position label fst snd]. rewrite Ec.
    split; [exact Er|]. split; [discriminate|reflexivity].
Qed.

Lemma create_page_fill_area readtext mean_color tryd H W stem rows cols ign page :
  create_page_from_screenshot readtext mean_color tryd H W stem rows cols ign = Ok page ->
  exists ox oy mw mh,
    fill_cells readtext mean_color (search_area H W ox oy mw mh)
      (grid_cells (fst (grid_size page)) (snd (grid_size page))) [] = Ok (buttons page).
Proof.
  unfold create_page_from_screenshot. intros Hp.
  peel_ok Hp. destruct a as [[dc dr] boxes].
  destruct (_ || _); [discriminate|].
  peel_ok Hp. peel_ok Hp. peel_ok Hp. peel_ok Hp. peel_ok Hp.
  injection Hp as <-. simpl. do 4 eexists. eassumption.
Qed.

(** C3 (amended). For some grid origin [(ox, oy)] and cell size [(mw, mh)],
    every button label of a page returned by [create_page_from_screenshot]
    is non-empty, starts and ends with a non-whitespace character, and is
    the space-join of the kept fragments (confidence at least 0.3, stripped,
    non-empty, not 'vocab' or 'menu') of the EasyOCR results read in the
    search area of the button's cell.  Nothing else is done to the
    characters: what [strip] leaves inside a fragment stays in the label. *)
Theorem create_page_labels_trimmed readtext mean_color tryd H W stem rows cols ign page :
  create_page_from_screenshot readtext mean_color tryd H W stem rows cols ign = Ok page ->
  exists ox oy mw mh, forall b, In b (buttons page) ->
    starts_ok (label b) = true /\ ends_ok (label b) = true /\
    exists results,
      readtext (search_area H W ox oy mw mh (fst (position b)) (snd (position b))) = Ok results /\
      kept_fragments results <> [] /\
      label b = join [" "%char] (kept_fragments results).
Proof.
  intros Hp. destruct (create_page_fill_area _ _ _ _ _ _ _ _ _ _ Hp) as [ox [oy [mw [mh Hf]]]].
  exists ox, oy, mw, mh. intros b Hb.
  destruct (fill_cells_labels _ _ _ _ _ _ Hf b Hb) as [[] | [Hs He]].
  split; [exact Hs|]. split; [exact He|].
  destruct (fill_cells_label_source _ _ _ _ _ _ Hf b Hb) as [[] | [results [Er [Hne Hl]]]].
  exists results. rewrite <- cell_texts_kept. auto.
Qed.

(** A witness of C3 on the 2x2 board. *)
Lemma create_page_labels_trimmed_witness :
  exists page,
    create_page_from_screenshot Samples.read_punct Samples.grey Samples.detect_board_2x2
      200 200 (s "shot") (Some 2) (Some 2) 0 = Ok page /\
    exists ox oy mw mh, forall b, In b (buttons page) ->
      starts_ok (label b) = true /\ ends_ok (label b) = true /\
      exists results,
        Samples.read_punct (search_area 200 200 ox oy mw mh (fst (position b)) (snd (position b)))
          = Ok results /\
        kept_fragments results <> [] /\
        label b = join [" "%char] (kept_fragments results).
Proof.
  eexists. split; [vm_compute; reflexivity|].
  eapply (create_page_labels_trimmed Samples.read_punct Samples.grey
            Samples.detect_board_2x2 200 200 (s "shot") (Some 2) (Some 2) 0).
  vm_compute. reflexivity.
Defined.

(** The characters the spec allows in a label. *)
Definition label_char_allowed (c : ascii) : bool :=
  is_alnum c || Ascii.eqb c " "%char || Ascii.eqb c "-"%char || Ascii.eqb c "."%char.

(** C3, counterexample. When the OCR reads "Hi!" and "a  b" in a cell, the
    label is "Hi! a  b": it keeps the '!' and the double space. *)
Lemma create_page_label_unsanitized :
  exists page b,
    create_page_from_screenshot Samples.read_punct Samples.grey Samples.detect_board_2x2
      200 200 (s "shot") (Some 2) (Some 2) 0 = Ok page /\
    In b (buttons page) /\ label b = s "Hi! a  b" /\
    forallb label_char_allowed (label b) = false.
Proof.
  eexists. eexists. split; [vm_compute; reflexivity|].
  split; [simpl; left; reflexivity|]. split; reflexivity.
Qed.

(** C5 (code bug). [sorted(y_coords)[ignore_rows]] indexes the sorted
    y-coordinates of the detected boxes, one entry per box, not one per
    detected row. On the 2x2 board the two top boxes share y = 0, so with
    [ignore_rows = 1] the grid origin is still the topmost box (y = 0, where
    the first row past it starts at y = 100), and the toolbar strip read at
    the top of the image becomes the button at (0, 0). With [ignore_rows = 4]
    on the same four boxes the call raises IndexError. *)
Theorem create_page_ignore_rows_counts_boxes :
  grid_origin_y 1 (map by_ Samples.board_2x2) = py_min (map by_ Samples.board_2x2) /\
  py_min (map by_ Samples.board_2x2) = Ok 0 /\
  (exists page,
     create_page_from_screenshot Samples.read_toolbar Samples.grey Samples.detect_board_2x2
       200 200 (s "shot") (Some 2) (Some 2) 1 = Ok page /\
     exists b, In b (buttons page) /\ position b = (0, 0) /\ label b = s "Toolbar") /\
  grid_origin_y 4 (map by_ Samples.board_2x2) = Err IndexError.
Proof.
  split; [vm_compute; reflexivity|].
  split; [vm_compute; reflexivity|].
  split; [|vm_compute; reflexivity].
  eexists. split; [vm_compute; reflexivity|].
  eexists. split; [simpl; left; reflexivity|]. split; reflexivity.
Qed.

Import Ext.

Lemma str_eqb_refl t : str_eqb t t = true.
Proof. induction t; simpl; auto. now rewrite Ascii.eqb_refl. Qed.

Lemma str_eqb_eq t u : str_eqb t u = true -> t = u.
Proof.
  revert u; induction t as [|a t IH]; intros [|b u]; simpl; try discriminate; auto.
  intros H. apply andb_true_iff in H as [H1 H2].
  apply Ascii.eqb_eq in H1. subst. f_equal. auto.
Qed.

Lemma lower_char_dot c : lower_char c = "."%char -> c = "."%char.
Proof.
  unfold lower_char. destruct (is_upper c) eqn:E; [|auto].
  intros Heq. exfalso. unfold is_upper, code in E.
  apply andb_true_iff in E as [E1 E2]. apply Nat.leb_le in E1, E2.
  apply (f_equal nat_of_ascii) in Heq. unfold code in Heq.
  rewrite nat_ascii_embedding in Heq by lia.
  change (nat_of_ascii "."%char) with 46%nat in Heq. lia.
Qed.

Lemma lower_nodot t :
  forallb (fun c => negb (Ascii.eqb c "."%char)) (lower t) = true ->
  forallb (fun c => negb (Ascii.eqb c "."%char)) t = true.
Proof.
  induction t as [|a t IH]; simpl; auto.
  intros H. apply andb_true_iff in H as [H1 H2]. rewrite (IH H2), andb_true_r.
  destruct (Ascii.eqb a "."%char) eqn:E; [|reflexivity].
  apply Ascii.eqb_eq in E. subst. vm_compute in H1. discriminate.
Qed.

Lemma rfind_dot_aux_app i t u acc :
  rfind_dot_aux i (t ++ u) acc =
  rfind_dot_aux (i + Z.of_nat (length t)) u (rfind_dot_aux i t acc).
Proof.
  revert i acc; induction t as [|a t IH]; intros i acc; simpl.
  - now rewrite Z.add_0_r.
  - rewrite IH. f_equal. lia.
Qed.

Lemma rfind_dot_aux_nodot i u acc :
  forallb (fun c => negb (Ascii.eqb c "."%char)) u = true ->
  rfind_dot_aux i u acc = acc.
Proof.
  revert i acc; induction u as [|a u IH]; intros i acc; simpl; auto.
  intros H. apply andb_true_iff in H as [H1 H2].
  destruct (Ascii.eqb a "."%char); [discriminate|]. auto.
Qed.

Lemma image_ext_shape ext :
  In (lower ext) image_exts ->
  exists r, ext = "."%char :: r /\
    forallb (fun c => negb (Ascii.eqb c "."%char)) r = true /\ (3 <= length r)%nat.
Proof.
  intros Hin.
  assert (Hx : exists l, lower ext = "."%char :: l /\
    forallb (fun c => negb (Ascii.eqb c "."%char)) l = true /\ (3 <= length l)%nat).
  { destruct Hin as [H|[H|[H|[H|[]]]]]; rewrite <- H.
    - exists (s "png"). split; [reflexivity|]. split; [reflexivity|]. simpl; lia.
    - exists (s "jpg"). split; [reflexivity|]. split; [reflexivity|]. simpl; lia.
    - exists (s "jpeg"). split; [reflexivity|]. split; [reflexivity|]. simpl; lia.
    - exists (s "bmp"). split; [reflexivity|]. split; [reflexivity|]. simpl; lia. }
  destruct Hx as [l [Hl [Hnd Hlen]]].
  destruct ext as [|e0 r]; [discriminate|].
  cbn [lower map] in Hl. injection Hl as H0 Hr.
  exists r. split; [now rewrite (lower_char_dot _ H0)|]. split.
  - apply lower_nodot. fold (lower r) in Hr. now rewrite Hr.
  - fold (lower r) in Hr. unfold lower in Hr.
    rewrite <- (length_map lower_char r), Hr. exact Hlen.
Qed.

(** C10. [can_process] accepts a path exactly when the final component of
    the path splits as a non-empty stem followed by an extension whose
    lowercase form is one of .png, .jpg, .jpeg or .bmp. It is a function of
    the path string alone, so the file's existence and contents play no part. *)
Theorem can_process_iff p :
  can_process p = true <->
  exists stem ext, name p = stem ++ ext /\ stem <> [] /\ In (lower ext) image_exts.
Proof.
  split.
  - intros H. unfold can_process in H.
    apply existsb_exists in H as [x [Hx Heq]]. apply str_eqb_eq in Heq.
    unfold suffix in Heq. cbv zeta in Heq.
    match type of Heq with context [if ?c then _ else _] => destruct c eqn:Hc end.
    + exists (firstn (Z.to_nat (rfind_dot (name p))) (name p)),
             (skipn (Z.to_nat (rfind_dot (name p))) (name p)).
      split; [symmetry; apply firstn_skipn|]. split; [|rewrite Heq; exact Hx].
      apply andb_true_iff in Hc as [H1 H2]. apply Z.ltb_lt in H1, H2.
      intros E. apply (f_equal (@length _)) in E. rewrite length_firstn in E.
      simpl in E. lia.
    + exfalso. subst x. destruct Hx as [H|[H|[H|[H|[]]]]]; discriminate.
  - intros [stem [ext [Hn [Hs Hin]]]].
    destruct (image_ext_shape ext Hin) as [r [-> [Hnd Hlen]]].
    unfold can_process, suffix. cbv zeta. rewrite Hn.
    assert (Hi : rfind_dot (stem ++ "."%char :: r) = Z.of_nat (length stem)).
    { unfold rfind_dot. rewrite rfind_dot_aux_app. cbn [rfind_dot_aux].
      rewrite Ascii.eqb_refl. apply rfind_dot_aux_nodot. exact Hnd. }
    rewrite Hi, length_app. cbn [length].
    assert (Hpos : (0 < length stem)%nat) by (destruct stem; [congruence|simpl; lia]).
    replace ((0 <? Z.of_nat (length stem)) &&
             (Z.of_nat (length stem) <? Z.of_nat (length stem + S (length r)) - 1))
      with true by (symmetry; apply andb_true_iff; split; apply Z.ltb_lt; lia).
    rewrite Nat2Z.id, skipn_app, skipn_all, Nat.sub_diag. cbn [skipn app].
    apply existsb_exists. exists (lower ("."%char :: r)).
    split; [exact Hin|apply str_eqb_refl].
Qed.

(* ------------------------------------------------------------------------- *)
(** * Further properties of the pipeline *)

(** ** create_page_from_screenshot *)

Lemma create_page_shape readtext mean_color tryd H W stem rows cols ign page :
  create_page_from_screenshot readtext mean_color tryd H W stem rows cols ign = Ok page ->
  1 <= fst (grid_size page) /\ 1 <= snd (grid_size page) /\
  exists area, fill_cells readtext mean_color area
                 (grid_cells (fst (grid_size page)) (snd (grid_size page))) [] =
               Ok (buttons page).
Proof.
  unfold create_page_from_screenshot. intros Hp.
  peel_ok Hp. destruct a as [[dc dr] boxes].
  destruct (_ || _) eqn:Hd; [discriminate|].
  apply orb_false_iff in Hd as [Hr Hc]. apply Z.ltb_ge in Hr, Hc.
  peel_ok Hp. peel_ok Hp. peel_ok Hp. peel_ok Hp. peel_ok Hp.
  injection Hp as <-. simpl. split; [exact Hr|]. split; [exact Hc|].
  eexists. eassumption.
Qed.

Lemma grid_cells_length rows cols :
  length (grid_cells rows cols) = (Z.to_nat rows * Z.to_nat cols)%nat.
Proof.
  unfold grid_cells. rewrite (flat_map_length_const _ (Z.to_nat cols)).
  - now rewrite range_length.
  - intros x. now rewrite length_map, range_length.
Qed.

(** A page returned by [create_page_from_screenshot] has a grid of at least
    1x1 and at most [rows * cols] buttons. *)
Theorem create_page_button_count readtext mean_color tryd H W stem rows cols ign page :
  create_page_from_screenshot readtext mean_color tryd H W stem rows cols ign = Ok page ->
  1 <= fst (grid_size page) /\ 1 <= snd (grid_size page) /\
  Z.of_nat (length (buttons page)) <= fst (grid_size page) * snd (grid_size page).
Proof.
  intros Hp. destruct (create_page_shape _ _ _ _ _ _ _ _ _ _ Hp) as [Hr [Hc [area Hf]]].
  split; [exact Hr|]. split; [exact Hc|].
  apply fill_cells_positions in Hf. simpl in Hf.
  apply (f_equal (@length (Z * Z))) in Hf. rewrite length_map in Hf. rewrite Hf.
  pose proof (filter_length_le (kept_cell readtext area)
                (grid_cells (fst (grid_size page)) (snd (grid_size page)))) as Hle.
  rewrite grid_cells_length in Hle. nia.
Qed.

Lemma create_page_button_count_witness :
  exists page,
    create_page_from_screenshot Samples.read_toolbar Samples.grey Samples.detect_board_2x2
      200 200 (s "shot") (Some 2) (Some 2) 0 = Ok page /\
    1 <= fst (grid_size page) /\ 1 <= snd (grid_size page) /\
    Z.of_nat (length (buttons page)) <= fst (grid_size page) * snd (grid_size page).
Proof.
  eexists. split; [vm_compute; reflexivity|].
  eapply (create_page_button_count Samples.read_toolbar Samples.grey
            Samples.detect_board_2x2 200 200 (s "shot") (Some 2) (Some 2) 0).
  vm_compute. reflexivity.
Defined.

Lemma fill_cells_ids readtext mean_color area cells : forall btns out,
  fill_cells readtext mean_color area cells btns = Ok out ->
  exists nw, out = btns ++ nw /\
    map bid nw = map (fun i => s "btn_" ++ str_of_int (Z.of_nat (length btns + i)))
                     (seq 0 (length nw)) /\
    Forall (fun b => btype b = SPEAK) nw.
Proof.
  induction cells as [|[row col] cells IH]; intros btns out E; simpl in E.
  - injection E as <-. exists []. rewrite app_nil_r. auto.
  - destruct (readtext (area row col)) as [results|e]; simpl in E; [|discriminate].
    destruct (cell_texts results) as [|t ts]; [now apply IH|].
    apply IH in E. destruct E as [nw [-> [Hid Hty]]].
    eexists (_ :: nw). split; [now rewrite <- app_assoc|]. split.
    + cbn [map length seq]. rewrite Nat.add_0_r. f_equal.
      rewrite Hid, <- seq_shift, map_map, length_app. cbn [length].
      apply map_ext. intros i. do 3 f_equal. lia.
    + constructor; [reflexivity|exact Hty].
Qed.

(** The buttons of a page returned by [create_page_from_screenshot] are
    [SPEAK] buttons whose ids are "btn_0", "btn_1", ... in order. *)
Theorem create_page_button_ids readtext mean_color tryd H W stem rows cols ign page :
  create_page_from_screenshot readtext mean_color tryd H W stem rows cols ign = Ok page ->
  map bid (buttons page) =
    map (fun i => s "btn_" ++ str_of_int (Z.of_nat i)) (seq 0 (length (buttons page))) /\
  Forall (fun b => btype b = SPEAK) (buttons page).
Proof.
  intros Hp. destruct (create_page_shape _ _ _ _ _ _ _ _ _ _ Hp) as [_ [_ [area Hf]]].
  apply fill_cells_ids in Hf. destruct Hf as [nw [Hn [Hid Hty]]].
  simpl in Hn. rewrite Hn. auto.
Qed.

Lemma create_page_button_ids_witness :
  exists page,
    create_page_from_screenshot Samples.read_toolbar Samples.grey Samples.detect_board_2x2
      200 200 (s "shot") (Some 2) (Some 2) 0 = Ok page /\
    map bid (buttons page) =
      map (fun i => s "btn_" ++ str_of_int (Z.of_nat i)) (seq 0 (length (buttons page))) /\
    Forall (fun b => btype b = SPEAK) (buttons page).
Proof.
  eexists. split; [vm_compute; reflexivity|].
  eapply (create_page_button_ids Samples.read_toolbar Samples.grey
            Samples.detect_board_2x2 200 200 (s "shot") (Some 2) (Some 2) 0).
  vm_compute. reflexivity.
Defined.

(** ** extract_texts and load_into_tree *)

Import Tree.

Lemma create_page_labels_nonempty readtext mean_color tryd H W stem rows cols ign page :
  create_page_from_screenshot readtext mean_color tryd H W stem rows cols ign = Ok page ->
  Forall (fun t => starts_ok t = true /\ ends_ok t = true) (map label (buttons page)).
Proof.
  intros Hp. destruct (create_page_shape _ _ _ _ _ _ _ _ _ _ Hp) as [_ [_ [area Hf]]].
  apply Forall_forall. intros t Ht. apply in_map_iff in Ht. destruct Ht as [b [<- Hb]].
  destruct (fill_cells_labels _ _ _ _ _ _ Hf b Hb) as [[]|Hl]. exact Hl.
Qed.

(** [extract_texts] returns the label of every button of the page that
    [create_page_from_screenshot] builds without hints, in button order: its
    [if btn.label] filter drops nothing, and each text is non-empty with no
    leading or trailing whitespace. *)
Theorem extract_texts_labels readtext mean_color tryd H W path texts :
  extract_texts readtext mean_color tryd H W path = Ok texts ->
  exists page,
    create_page_from_screenshot readtext mean_color tryd H W (stem path) None None 0 = Ok page /\
    texts = map label (buttons page) /\
    Forall (fun t => starts_ok t = true /\ ends_ok t = true) texts.
Proof.
  unfold extract_texts. intros E. peel_ok E. injection E as <-.
  exists a. split; [reflexivity|].
  pose proof (create_page_labels_nonempty _ _ _ _ _ _ _ _ _ _ E0) as Hl.
  assert (Hf : filter (fun btn => match label btn with [] => false | _ => true end)
                 (buttons a) = buttons a).
  { apply forallb_filter_id. apply forallb_forall. intros b Hb.
    rewrite Forall_forall in Hl. destruct (Hl (label b) (in_map _ _ _ Hb)) as [Hs _].
    destruct (label b); [discriminate|reflexivity]. }
  rewrite Hf. auto.
Qed.

Lemma extract_texts_labels_witness :
  exists texts,
    extract_texts Samples.read_toolbar Samples.grey Samples.detect_board_3x4 300 400
      (s "dir/board.png") = Ok texts /\
    exists page,
      create_page_from_screenshot Samples.read_toolbar Samples.grey Samples.detect_board_3x4
        300 400 (stem (s "dir/board.png")) None None 0 = Ok page /\
      texts = map label (buttons page) /\
      Forall (fun t => starts_ok t = true /\ ends_ok t = true) texts.
Proof.
  eexists. split; [vm_compute; reflexivity|].
  eapply (extract_texts_labels Samples.read_toolbar Samples.grey Samples.detect_board_3x4
            300 400 (s "dir/board.png")).
  vm_compute. reflexivity.
Defined.

Lemma str_eqb_sym t u : str_eqb t u = str_eqb u t.
Proof.
  revert u; induction t as [|a t IH]; intros [|b u]; simpl; auto.
  now rewrite Ascii.eqb_sym, IH.
Qed.

Lemma dict_get_set k k' v d :
  dict_get k (dict_set k' v d) = if str_eqb k k' then Some v else dict_get k d.
Proof.
  induction d as [|[k0 v0] d IH]; simpl; [reflexivity|].
  destruct (str_eqb k' k0) eqn:E; simpl.
  - apply str_eqb_eq in E. subst k0. now destruct (str_eqb k k').
  - rewrite IH. destruct (str_eqb k k') eqn:E1; [|reflexivity].
    apply str_eqb_eq in E1. subst k'. now rewrite E.
Qed.

Lemma find_app {A} (f : A -> bool) l1 l2 :
  find f (l1 ++ l2) = match find f l1 with Some x => Some x | None => find f l2 end.
Proof.
  induction l1 as [|x l1 IH]; simpl; [reflexivity|]. destruct (f x); auto.
Qed.

Lemma add_pages_get ps : forall t k,
  dict_get k (pages (fold_left add_page ps t)) =
  match find (fun p => str_eqb (pid p) k) (rev ps) with
  | Some p => Some p
  | None => dict_get k (pages t)
  end.
Proof.
  induction ps as [|p ps IH]; intros t k; simpl; [reflexivity|].
  rewrite IH, find_app. simpl. rewrite dict_get_set, str_eqb_sym.
  destruct (find _ (rev ps)); [reflexivity|].
  destruct (str_eqb (pid p) k); reflexivity.
Qed.

Lemma add_pages_root ps : forall t,
  root_id (fold_left add_page ps t) =
  if truthy_str (root_id t) then root_id t
  else match find (fun p => truthy_str (Some (pid p))) ps with
       | Some p => Some (pid p)
       | None => match ps with [] => root_id t | _ => Some [] end
       end.
Proof.
  induction ps as [|p ps IH]; intros t; simpl.
  - destruct (truthy_str (root_id t)); reflexivity.
  - rewrite IH. simpl. destruct (truthy_str (root_id t)) eqn:Er; [now rewrite Er|].
    destruct (pid p) as [|c r] eqn:Ep; simpl; [|now rewrite Ep].
    destruct (find _ ps); [reflexivity|]. destruct ps; reflexivity.
Qed.

(** [AACTree.add_page], starting from an empty tree: looking an id up in
    [pages] gives the last page added with that id (a later page replaces an
    earlier one), and [root_id] is the id of the first page added whose id is
    non-empty; if every id added is empty it is the empty id, and with no
    page it is [None]. *)
Theorem add_page_pages_root ps :
  (forall k, dict_get k (pages (fold_left add_page ps empty_tree)) =
             find (fun p => str_eqb (pid p) k) (rev ps)) /\
  root_id (fold_left add_page ps empty_tree) =
    match find (fun p => truthy_str (Some (pid p))) ps with
    | Some p => Some (pid p)
    | None => match ps with [] => None | _ => Some [] end
    end.
Proof.
  split.
  - intros k. rewrite add_pages_get. simpl. destruct (find _ _); reflexivity.
  - rewrite add_pages_root. reflexivity.
Qed.

(** ** detect_cell_content: the text cleanup *)

Import Cell.

(** No two adjacent whitespace characters. *)
Fixpoint ws_pair_free (t : str) : bool :=
  match t with
  | c1 :: ((c2 :: _) as r) => negb (is_space c1 && is_space c2) && ws_pair_free r
  | _ => true
  end.

Lemma ws_pair_free_cons c t :
  ws_pair_free (c :: t) =
  match t with c2 :: _ => negb (is_space c && is_space c2) | [] => true end && ws_pair_free t.
Proof. destruct t; reflexivity. Qed.

Lemma ws_pair_free_app_r a b : ws_pair_free (a ++ b) = true -> ws_pair_free b = true.
Proof.
  induction a as [|c a IH]; cbn [app]; auto.
  rewrite ws_pair_free_cons. intros H. apply andb_true_iff in H as [_ H]. auto.
Qed.

Lemma ws_pair_free_app_l a b : ws_pair_free (a ++ b) = true -> ws_pair_free a = true.
Proof.
  induction a as [|c a IH]; cbn [app]; auto.
  rewrite ws_pair_free_cons. intros H. apply andb_true_iff in H as [H1 H2].
  rewrite ws_pair_free_cons, (IH H2), andb_true_r.
  destruct a; simpl in *; auto.
Qed.

Lemma collapse_ws_true_head r :
  match collapse_ws true r with c :: _ => is_space c = false | [] => True end.
Proof.
  induction r as [|c r IH]; simpl; auto.
  destruct (is_space c) eqn:E; auto.
Qed.

Lemma collapse_ws_free b t : ws_pair_free (collapse_ws b t) = true.
Proof.
  revert b; induction t as [|c r IH]; intros b; simpl; auto.
  destruct (is_space c) eqn:E; [destruct b; auto|].
  - rewrite ws_pair_free_cons, IH, andb_true_r.
    pose proof (collapse_ws_true_head r) as Hh.
    destruct (collapse_ws true r); [reflexivity|]. now rewrite Hh, andb_false_r.
  - rewrite ws_pair_free_cons, IH, andb_true_r, E. now destruct (collapse_ws false r).
Qed.

Lemma collapse_ws_chars b t c :
  In c (collapse_ws b t) -> c = " "%char \/ (In c t /\ is_space c = false).
Proof.
  revert b; induction t as [|d r IH]; intros b; simpl; [intros []|].
  destruct (is_space d) eqn:E.
  - destruct b; [intros H; destruct (IH _ H) as [? | [? ?]]; auto|].
    intros [<- | H]; [now left|]. destruct (IH _ H) as [? | [? ?]]; auto.
  - intros [<- | H]; [now right; auto|]. destruct (IH _ H) as [? | [? ?]]; auto.
Qed.

Lemma strip_infix t : exists pre post, t = pre ++ strip t ++ post.
Proof.
  unfold strip, rstrip. destruct (lstrip_suffix t) as [pre Hpre].
  destruct (lstrip_suffix (rev (lstrip t))) as [pre2 Hpre2].
  exists pre, (rev pre2). rewrite Hpre at 1. f_equal.
  apply (f_equal (@rev ascii)) in Hpre2. now rewrite rev_involutive, rev_app_distr in Hpre2.
Qed.

Lemma cleanup_shape t :
  cleanup t = [] \/
  (2 <= length (cleanup t))%nat /\
  (forall c, In c (cleanup t) ->
     c = " "%char \/ (allowed c = true /\ is_space c = false)) /\
  starts_ok (cleanup t) = true /\ ends_ok (cleanup t) = true /\
  ws_pair_free (cleanup t) = true.
Proof.
  unfold cleanup. set (u := strip (collapse_ws false (filter allowed t))).
  destruct ((length u <? 2)%nat || isspace u) eqn:E; [now left|right].
  apply orb_false_iff in E as [E _]. apply Nat.ltb_ge in E.
  destruct (strip_infix (collapse_ws false (filter allowed t))) as [pre [post Hi]].
  fold u in Hi.
  split; [exact E|]. split; [|split; [|split]].
  - intros c Hc. assert (Hin : In c (collapse_ws false (filter allowed t)))
      by (rewrite Hi; apply in_or_app; right; apply in_or_app; now left).
    destruct (collapse_ws_chars _ _ _ Hin) as [? | [Hf Hs]]; [now left|right].
    apply filter_In in Hf. tauto.
  - apply strip_ok. intros Hu. fold u in Hu. rewrite Hu in E. simpl in E. lia.
  - apply strip_ok. intros Hu. fold u in Hu. rewrite Hu in E. simpl in E. lia.
  - pose proof (collapse_ws_free false (filter allowed t)) as Hf. rewrite Hi in Hf.
    apply ws_pair_free_app_r in Hf. now apply ws_pair_free_app_l in Hf.
Qed.

Lemma ws_pair_free_no_double a b :
  ws_pair_free (a ++ " "%char :: " "%char :: b) = false.
Proof.
  induction a as [|c a IH]; [reflexivity|].
  cbn [app]. rewrite ws_pair_free_cons, IH. apply andb_false_r.
Qed.

(** The text found by [detect_cell_content] is empty, or it has at least two
    characters, all of them letters, digits, underscores, periods, hyphens or
    spaces, starts and ends with a non-space character and never has two
    spaces in a row. *)
Theorem detect_cell_content_text_clean image preprocess ocr c :
  detect_cell_content image preprocess ocr = Ok c ->
  text c = [] \/
  (2 <= length (text c))%nat /\
  Forall (fun ch => is_alnum ch = true \/ ch = "_"%char \/ ch = "."%char \/
                    ch = "-"%char \/ ch = " "%char) (text c) /\
  starts_ok (text c) = true /\ ends_ok (text c) = true /\
  ~ (exists a b, text c = a ++ " "%char :: " "%char :: b).
Proof.
  unfold detect_cell_content. intros E. peel_ok E.
  destruct a as [[[b g] r] scaled]. injection E as <-. simpl.
  assert (Hc : forall t, cleanup t = [] \/
    (2 <= length (cleanup t))%nat /\
    Forall (fun ch => is_alnum ch = true \/ ch = "_"%char \/ ch = "."%char \/
                      ch = "-"%char \/ ch = " "%char) (cleanup t) /\
    starts_ok (cleanup t) = true /\ ends_ok (cleanup t) = true /\
    ~ (exists a b, cleanup t = a ++ " "%char :: " "%char :: b)).
  { intros t. destruct (cleanup_shape t) as [H0 | [H1 [H2 [H3 [H4 H5]]]]]; [now left|right].
    split; [exact H1|]. split; [|split; [exact H3|split; [exact H4|]]].
    - apply Forall_forall. intros ch Hch. destruct (H2 ch Hch) as [-> | [Ha Hs]]; [tauto|].
      unfold allowed in Ha. rewrite Hs in Ha.
      destruct (is_alnum ch) eqn:Hal; [now left|].
      destruct (code ch =? 95)%nat eqn:H95; simpl in Ha.
      + right. left. apply Nat.eqb_eq in H95. rewrite <- (ascii_nat_embedding ch).
        unfold code in H95. now rewrite H95.
      + destruct (Ascii.eqb ch "."%char) eqn:Hd; simpl in Ha;
          [apply Ascii.eqb_eq in Hd; tauto|].
        apply Ascii.eqb_eq in Ha. tauto.
    - intros [a [b' Hab]]. rewrite Hab, ws_pair_free_no_double in H5. discriminate. }
  unfold ocr_text.
  destruct (ocr 8 scaled) as [t|]; [|now left].
  destruct (strip t) as [|c0 t0]; [|apply Hc].
  destruct (ocr 7 scaled) as [t'|]; [apply Hc|now left].
Qed.

Lemma detect_cell_content_text_clean_witness :
  exists c,
    detect_cell_content unit (Ok ((1, 2, 3)%Q, tt))
      (fun _ _ => Some (s "  Hi!  there_ ")) = Ok c /\
    (text c = [] \/
     (2 <= length (text c))%nat /\
     Forall (fun ch => is_alnum ch = true \/ ch = "_"%char \/ ch = "."%char \/
                       ch = "-"%char \/ ch = " "%char) (text c) /\
     starts_ok (text c) = true /\ ends_ok (text c) = true /\
     ~ (exists a b, text c = a ++ " "%char :: " "%char :: b)).
Proof.
  eexists. split; [vm_compute; reflexivity|].
  eapply (detect_cell_content_text_clean unit (Ok ((1, 2, 3)%Q, tt))
            (fun _ _ => Some (s "  Hi!  there_ "))).
  vm_compute. reflexivity.
Defined.

Lemma filter_allowed_id u :
  (forall c, In c u -> c = " "%char \/ (allowed c = true /\ is_space c = false)) ->
  filter allowed u = u.
Proof.
  intros H. apply forallb_filter_id, forallb_forall. intros c Hc.
  destruct (H c Hc) as [-> | [Ha _]]; [reflexivity|exact Ha].
Qed.

Lemma collapse_ws_id u : forall b,
  (b = true -> match u with c :: _ => is_space c = false | [] => True end) ->
  ws_pair_free u = true ->
  (forall c, In c u -> is_space c = true -> c = " "%char) ->
  collapse_ws b u = u.
Proof.
  induction u as [|c r IH]; intros b Hb Hf Hs; simpl; [reflexivity|].
  rewrite ws_pair_free_cons in Hf. apply andb_true_iff in Hf as [Hh Hf].
  assert (Hs' : forall c', In c' r -> is_space c' = true -> c' = " "%char)
    by (intros c' Hc'; apply Hs; now right).
  destruct (is_space c) eqn:E.
  - destruct b; [specialize (Hb eq_refl); simpl in Hb; congruence|].
    rewrite (Hs c (or_introl eq_refl) E). f_equal. apply IH; auto.
    intros _. destruct r as [|c2 r]; [exact I|]. simpl in Hh.
    destruct (is_space c2); [discriminate|reflexivity].
  - f_equal. apply IH; auto. discriminate.
Qed.

Lemma strip_id u : starts_ok u = true -> ends_ok u = true -> strip u = u.
Proof.
  intros Hs He. unfold strip, rstrip.
  assert (Hl : forall v, starts_ok v = true -> lstrip v = v).
  { intros [|c v] H; [reflexivity|]. simpl in *. destruct (is_space c); [discriminate|reflexivity]. }
  rewrite (Hl u Hs). unfold ends_ok in He. rewrite (Hl _ He). apply rev_involutive.
Qed.

(** The cleanup of lines 324-331 is idempotent: cleaning an already cleaned
    OCR text returns it unchanged. *)
Theorem cleanup_idempotent t : cleanup (cleanup t) = cleanup t.
Proof.
  destruct (cleanup_shape t) as [H0 | [H1 [H2 [H3 [H4 H5]]]]];
    [rewrite H0; reflexivity|].
  set (u := cleanup t) in *.
  unfold cleanup at 1.
  rewrite (filter_allowed_id u H2).
  rewrite (collapse_ws_id u false); [| discriminate | exact H5 |].
  2:{ intros c Hc Hsp. destruct (H2 c Hc) as [-> | [_ Hn]]; [reflexivity|congruence]. }
  rewrite (strip_id u H3 H4).
  replace ((length u <? 2)%nat || isspace u) with false; [reflexivity|].
  symmetry. apply orb_false_iff. split; [now apply Nat.ltb_ge|].
  unfold isspace. destruct u as [|c u']; [reflexivity|].
  simpl in H3 |- *. apply negb_true_iff in H3. now rewrite H3.
Qed.

(** ** The button colour *)

Lemma py_int_byte q : (0 <= q)%Q -> (q < 256)%Q -> 0 <= py_int q < 256.
Proof.
  destruct q as [n d]. unfold Qle, Qlt, py_int. cbn [Qnum Qden]. intros H1 H2.
  rewrite Z.quot_div_nonneg by lia. split.
  - apply Z.div_pos; lia.
  - apply Z.div_lt_upper_bound; lia.
Qed.

Lemma hex02_byte n :
  0 <= n < 256 ->
  hex02 n = [nth (Z.to_nat (n / 16)) (s "0123456789abcdef") "0"%char;
             nth (Z.to_nat (n mod 16)) (s "0123456789abcdef") "0"%char].
Proof.
  intros Hn.
  assert (Hall : forallb (fun n => str_eqb (hex02 n)
             [nth (Z.to_nat (n / 16)) (s "0123456789abcdef") "0"%char;
              nth (Z.to_nat (n mod 16)) (s "0123456789abcdef") "0"%char]) (range 256) = true)
    by (vm_compute; reflexivity).
  rewrite forallb_forall in Hall. apply str_eqb_eq, Hall, In_range. exact Hn.
Qed.

(** For average colour channels in [0, 256) (those of an 8-bit image), a
    button's [body_color] is "#" followed by the red, green and blue values
    truncated to integers, each written as exactly two lowercase hex digits. *)
Theorem color_hex_format b g r :
  (0 <= b < 256)%Q -> (0 <= g < 256)%Q -> (0 <= r < 256)%Q ->
  let hex := fun n => [nth (Z.to_nat (n / 16)) (s "0123456789abcdef") "0"%char;
                       nth (Z.to_nat (n mod 16)) (s "0123456789abcdef") "0"%char] in
  color_hex (b, g, r) = "#"%char :: hex (py_int r) ++ hex (py_int g) ++ hex (py_int b).
Proof.
  intros [Hb1 Hb2] [Hg1 Hg2] [Hr1 Hr2] hex. unfold color_hex.
  rewrite !hex02_byte by (apply py_int_byte; assumption). reflexivity.
Qed.

Lemma color_hex_format_witness :
  ((0 <= 12 # 1 < 256)%Q /\ (0 <= 171 # 2 < 256)%Q /\ (0 <= 255 # 1 < 256)%Q) /\
  color_hex (12 # 1, 171 # 2, 255 # 1) = s "#ff550c" /\
  (let hex := fun n => [nth (Z.to_nat (n / 16)) (s "0123456789abcdef") "0"%char;
                        nth (Z.to_nat (n mod 16)) (s "0123456789abcdef") "0"%char] in
   color_hex (12 # 1, 171 # 2, 255 # 1) =
     "#"%char :: hex (py_int (255 # 1)) ++ hex (py_int (171 # 2)) ++ hex (py_int (12 # 1))).
Proof.
  split; [unfold Qle, Qlt; simpl; lia|]. split; [vm_compute; reflexivity|].
  apply color_hex_format; unfold Qle, Qlt; simpl; lia.
Defined.

(** ** _try_detection *)

Import Contours.

Lemma ForallOrdPairs_snoc {A} (R : A -> A -> Prop) l x :
  ForallOrdPairs R l -> Forall (fun a => R a x) l -> ForallOrdPairs R (l ++ [x]).
Proof.
  induction 1 as [|a l Ha Hl IH]; intros Hx; simpl.
  - constructor; [constructor|constructor].
  - inversion Hx as [|? ? Hax Hx']; subst. constructor.
    + apply Forall_app. split; [exact Ha|]. now constructor.
    + now apply IH.
Qed.

Lemma ForallOrdPairs_map {A B} (R : B -> B -> Prop) (f : A -> B) l :
  ForallOrdPairs (fun a b => R (f a) (f b)) l -> ForallOrdPairs R (map f l).
Proof.
  induction 1 as [|a l Ha Hl IH]; simpl; constructor; [|exact IH].
  apply Forall_map. exact Ha.
Qed.

Section TryDetectionProofs.

Variable contour : Type.
Variable contourArea : contour -> Q.
Variable approx_len : contour -> nat.
Variable boundingRect : contour -> box.

(** The filter of lines 99-103 that a kept contour passed. *)
Definition passes (min_area max_area aspect_min aspect_max : Q) (c : contour) : Prop :=
  (min_area < contourArea c < max_area)%Q /\ approx_len c = 4%nat /\
  bh (boundingRect c) <> 0 /\
  (aspect_min < inject_Z (bw (boundingRect c)) / inject_Z (bh (boundingRect c)) < aspect_max)%Q.

Definition apart (a b : contour) : Prop := overlaps (boundingRect b) (boundingRect a) = Ok false.

Lemma is_unique_spec b l :
  is_unique contour boundingRect b l = Ok true -> Forall (fun e => overlaps b (boundingRect e) = Ok false) l.
Proof.
  induction l as [|e l IH]; simpl; [constructor|].
  destruct (overlaps b (boundingRect e)) as [[|]|] eqn:E; simpl; try discriminate.
  intros H. constructor; [exact E|]. now apply IH.
Qed.

Lemma filter_contours_spec mn mx amn amx cs : forall acc cell,
  filter_contours contour contourArea approx_len boundingRect mn mx amn amx cs acc = Ok cell ->
  ForallOrdPairs apart acc ->
  ForallOrdPairs apart cell /\
  (forall c, In c cell -> In c acc \/ (In c cs /\ passes mn mx amn amx c)) /\
  (length cell <= length acc + length cs)%nat.
Proof.
  induction cs as [|cnt cs IH]; intros acc cell E Hacc; cbn [filter_contours] in E.
  - injection E as <-. split; [exact Hacc|]. split; [auto|]. simpl; lia.
  - assert (Hskip : filter_contours contour contourArea approx_len boundingRect mn mx amn amx cs acc = Ok cell ->
              ForallOrdPairs apart cell /\
              (forall c, In c cell -> In c acc \/ (In c (cnt :: cs) /\ passes mn mx amn amx c)) /\
              (length cell <= length acc + length (cnt :: cs))%nat).
    { intros E'. destruct (IH acc cell E' Hacc) as [H1 [H2 H3]].
      split; [exact H1|]. split; [|simpl; lia].
      intros c Hc. destruct (H2 c Hc) as [?|[? ?]]; [now left|right; split; [now right|auto]]. }
    destruct (Qlt_b mn (contourArea cnt) && Qlt_b (contourArea cnt) mx) eqn:Ea;
      [|exact (Hskip E)].
    destruct (approx_len cnt =? 4)%nat eqn:E4; [|exact (Hskip E)].
    destruct (bh (boundingRect cnt) =? 0) eqn:Eh; [discriminate|].
    destruct (Qlt_b amn (inject_Z (bw (boundingRect cnt)) / inject_Z (bh (boundingRect cnt)))
              && Qlt_b (inject_Z (bw (boundingRect cnt)) / inject_Z (bh (boundingRect cnt))) amx)
      eqn:Eas; [|exact (Hskip E)].
    destruct (is_unique contour boundingRect (boundingRect cnt) acc) as [u|e] eqn:Eu;
      cbn [bind] in E; [|discriminate].
    assert (Hp : passes mn mx amn amx cnt).
    { apply andb_true_iff in Ea as [Ea1 Ea2]. apply andb_true_iff in Eas as [Eas1 Eas2].
      apply Qlt_b_true in Ea1, Ea2, Eas1, Eas2. apply Nat.eqb_eq in E4. apply Z.eqb_neq in Eh.
      repeat split; assumption. }
    destruct u; [|exact (Hskip E)].
    apply is_unique_spec in Eu.
    assert (Hacc' : ForallOrdPairs apart (acc ++ [cnt])) by (apply ForallOrdPairs_snoc; assumption).
    destruct (IH _ _ E Hacc') as [H1 [H2 H3]].
    split; [exact H1|]. split.
    + intros c Hc. destruct (H2 c Hc) as [Hin | [Hin Hpc]].
      * apply in_app_or in Hin. destruct Hin as [Hin | [<- | []]]; [now left|].
        right. split; [now left|exact Hp].
      * right. split; [now right|exact Hpc].
    + rewrite length_app in H3. simpl in H3 |- *. lia.
Qed.

End TryDetectionProofs.

(** Every box returned by [_try_detection] is the bounding rectangle of one of
    the contours found, whose area lies strictly between [area_min_pct] and
    [area_max_pct] of the image area, whose polygon approximation has 4
    vertices, and whose aspect ratio [w / h] lies strictly between
    [aspect_min] and [aspect_max]; at most one box is returned per contour. *)
Theorem try_detection_filters contour contourArea approx_len boundingRect H W cs
    area_min_pct area_max_pct aspect_min aspect_max out :
  try_detection contour contourArea approx_len boundingRect H W cs
    area_min_pct area_max_pct aspect_min aspect_max = Ok out ->
  (length out <= length cs)%nat /\
  forall b, In b out -> exists c, In c cs /\ boundingRect c = b /\
    (inject_Z H * inject_Z W * area_min_pct < contourArea c <
       inject_Z H * inject_Z W * area_max_pct)%Q /\
    approx_len c = 4%nat /\ bh b <> 0 /\
    (aspect_min < inject_Z (bw b) / inject_Z (bh b) < aspect_max)%Q.
Proof.
  unfold try_detection. intros E. peel_ok E. injection E as <-.
  destruct (filter_contours_spec _ _ _ _ _ _ _ _ _ _ _ E0 (FOP_nil _))
    as [_ [Hin Hlen]].
  split; [rewrite length_map; simpl in Hlen; exact Hlen|].
  intros b Hb. apply in_map_iff in Hb. destruct Hb as [c [<- Hc]].
  destruct (Hin c Hc) as [[] | [Hcs [Ha [H4 [Hh Has]]]]].
  exists c. split; [exact Hcs|]. split; [reflexivity|]. tauto.
Qed.

(** A sample contour pass: each contour is given by its area, its vertex
    count and its bounding rectangle. *)
Definition sample_contours : list (Q * nat * box) :=
  [(900 # 1, 4%nat, (0, 0, 30, 30)); (800 # 1, 4%nat, (5, 5, 30, 30));
   (900 # 1, 4%nat, (50, 0, 30, 30)); (900 # 1, 3%nat, (0, 50, 30, 30));
   (20 # 1, 4%nat, (60, 60, 5, 4))].

Lemma try_detection_filters_witness :
  exists out,
    try_detection (Q * nat * box) (fun c => fst (fst c)) (fun c => snd (fst c)) snd
      200 200 sample_contours (5 # 1000) (5 # 100) (2 # 10) (5 # 1) = Ok out /\
    out = [(0, 0, 30, 30); (50, 0, 30, 30)] /\
    ((length out <= length sample_contours)%nat /\
     forall b, In b out -> exists c, In c sample_contours /\ snd c = b /\
       (inject_Z 200 * inject_Z 200 * (5 # 1000) < fst (fst c) <
          inject_Z 200 * inject_Z 200 * (5 # 100))%Q /\
       snd (fst c) = 4%nat /\ bh b <> 0 /\
       (2 # 10 < inject_Z (bw b) / inject_Z (bh b) < 5 # 1)%Q).
Proof.
  eexists. split; [vm_compute; reflexivity|]. split; [reflexivity|].
  eapply (try_detection_filters (Q * nat * box) (fun c => fst (fst c))
            (fun c => snd (fst c)) snd 200 200 sample_contours
            (5 # 1000) (5 # 100) (2 # 10) (5 # 1)).
  vm_compute. reflexivity.
Defined.

(** No box returned by [_try_detection] covers more than half of its own
    area with a box returned before it: for boxes [a] before [b] in the
    result, [b] has non-zero area and the overlap of [a] and [b] is at most
    half of [b]'s area. *)
Theorem try_detection_no_overlap contour contourArea approx_len boundingRect H W cs
    area_min_pct area_max_pct aspect_min aspect_max out :
  try_detection contour contourArea approx_len boundingRect H W cs
    area_min_pct area_max_pct aspect_min aspect_max = Ok out ->
  ForallOrdPairs (fun a b => bw b * bh b <> 0 /\
    (inject_Z (overlap_area b a) / inject_Z (bw b * bh b) <= 1 # 2)%Q) out.
Proof.
  unfold try_detection. intros E. peel_ok E. injection E as <-.
  destruct (filter_contours_spec _ _ _ _ _ _ _ _ _ _ _ E0 (FOP_nil _)) as [Hp _].
  apply ForallOrdPairs_map. clear E0.
  induction Hp as [|a l Ha Hl IH]; [apply FOP_nil|apply FOP_cons; [|exact IH]].
  apply Forall_forall. intros b Hb. rewrite Forall_forall in Ha. specialize (Ha b Hb).
  unfold apart, overlaps in Ha.
  destruct (bw (boundingRect b) * bh (boundingRect b) =? 0) eqn:Ez; [discriminate|].
  injection Ha as Ha. apply Qlt_b_false in Ha. apply Z.eqb_neq in Ez. auto.
Qed.

Lemma try_detection_no_overlap_witness :
  exists out,
    try_detection (Q * nat * box) (fun c => fst (fst c)) (fun c => snd (fst c)) snd
      200 200 sample_contours (5 # 1000) (5 # 100) (2 # 10) (5 # 1) = Ok out /\
    ForallOrdPairs (fun a b => bw b * bh b <> 0 /\
      (inject_Z (overlap_area b a) / inject_Z (bw b * bh b) <= 1 # 2)%Q) out.
Proof.
  eexists. split; [vm_compute; reflexivity|].
  eapply (try_detection_no_overlap (Q * nat * box) (fun c => fst (fst c))
            (fun c => snd (fst c)) snd 200 200 sample_contours
            (5 # 1000) (5 # 100) (2 # 10) (5 # 1)).
  vm_compute. reflexivity.
Defined.

(** ** detect_text_regions *)

Import TextRegions.

Lemma py_int_lt q : (inject_Z (py_int q) < q + 1)%Q.
Proof.
  destruct q as [n d]. unfold py_int, Qlt, Qplus, inject_Z. cbn [Qnum Qden].
  rewrite Pos.mul_1_r.
  pose proof (Z.quot_rem' n (Z.pos d)) as Hq.
  pose proof (Z.rem_bound_abs n (Z.pos d) ltac:(lia)) as Hr.
  nia.
Qed.

Lemma py_int_nonneg q : (-1 < q)%Q -> 0 <= py_int q.
Proof.
  destruct q as [n d]. unfold py_int, Qlt. cbn [Qnum Qden]. intros Hq.
  pose proof (Z.quot_rem' n (Z.pos d)) as Hqr.
  pose proof (Z.rem_bound_abs n (Z.pos d) ltac:(lia)) as Hr.
  destruct (Z.le_gt_cases 0 n) as [Hn|Hn].
  - apply Z.quot_pos; lia.
  - pose proof (Z.rem_nonpos n (Z.pos d) ltac:(lia) ltac:(lia)) as Hrn.
    nia.
Qed.

Lemma Qmin_le_l a b : (Merge.Qmin a b <= a)%Q.
Proof.
  unfold Merge.Qmin. destruct (Qle_bool a b) eqn:E; [apply Qle_refl|].
  apply Qlt_le_weak, Qnot_le_lt. intros H. apply Qle_bool_iff in H. congruence.
Qed.

Lemma Qmin_cases a b : Merge.Qmin a b = a \/ Merge.Qmin a b = b.
Proof. unfold Merge.Qmin. destruct (Qle_bool a b); auto. Qed.

Lemma Qmax_ge_l a b : (a <= Qmax a b)%Q.
Proof.
  unfold Qmax. destruct (Qle_bool a b) eqn:E; [now apply Qle_bool_iff|apply Qle_refl].
Qed.

Lemma fold_Qmin_le r : forall q, (fold_left Merge.Qmin r q <= q)%Q.
Proof.
  induction r as [|a r IH]; intros q; simpl; [apply Qle_refl|].
  eapply Qle_trans; [apply IH|apply Qmin_le_l].
Qed.

Lemma fold_Qmax_ge r : forall q, (q <= fold_left Qmax r q)%Q.
Proof.
  induction r as [|a r IH]; intros q; simpl; [apply Qle_refl|].
  eapply Qle_trans; [apply Qmax_ge_l|apply IH].
Qed.

Lemma int_extent_nonneg mn mx : (mn <= mx)%Q -> 0 <= py_int (mx - inject_Z (py_int mn)).
Proof.
  intros H. apply py_int_nonneg. pose proof (py_int_lt mn). lra.
Qed.

Lemma points_box_nonneg pts b : points_box pts = Ok b -> 0 <= bw b /\ 0 <= bh b.
Proof.
  destruct pts as [|[px py] pts]; [discriminate|].
  unfold points_box. cbn [map Qmin_list Qmax_list bind fst snd].
  intros E. injection E as <-. cbn [bw bh]. split; apply int_extent_nonneg;
    (eapply Qle_trans; [apply fold_Qmin_le|apply fold_Qmax_ge]).
Qed.

Section TextRegionProofs.

Variable mean_color : box -> Q * Q * Q.
Variables H W : Z.

(** What the loop of lines 375-411 guarantees of a region it keeps. *)
Definition region_ok (m : region) : Prop :=
  (3 # 10 <= rconf m)%Q /\ starts_ok (rtext m) = true /\ ends_ok (rtext m) = true /\
  0 <= bw (rbox m) /\ 0 <= bh (rbox m) /\
  (inject_Z W * inject_Z H * (2 # 10000) <= inject_Z (bw (rbox m) * bh (rbox m)))%Q.

Lemma text_region_ok r m : text_region mean_color H W r = Ok (Some m) -> region_ok m.
Proof.
  destruct r as [[pts t] conf]. unfold text_region.
  destruct (Qlt_b conf (3 # 10)) eqn:Ec; [discriminate|].
  destruct (points_box pts) as [b|e] eqn:Eb; cbn [bind]; [|discriminate].
  destruct (Qlt_b (inject_Z (bw b * bh b)) _) eqn:Ea; [discriminate|].
  destruct (mean_color b) as [[cb cg] cr].
  destruct (strip t) as [|c0 t0] eqn:Es; [discriminate|].
  destruct (existsb _ _); [discriminate|].
  intros E. injection E as <-. unfold region_ok. cbn [rconf rtext rbox].
  apply Qlt_b_false in Ec, Ea. destruct (points_box_nonneg _ _ Eb) as [Hw Hh].
  rewrite <- Es. destruct (strip_ok t ltac:(congruence)) as [Hs He].
  repeat split; assumption.
Qed.

Lemma text_regions_ok results : forall regs,
  text_regions mean_color H W results = Ok regs ->
  Forall region_ok regs /\ (length regs <= length results)%nat.
Proof.
  induction results as [|r results IH]; intros regs E; simpl in E.
  - injection E as <-. split; [constructor|simpl; lia].
  - destruct (text_region mean_color H W r) as [o|e] eqn:Er; cbn [bind] in E; [|discriminate].
    destruct (text_regions mean_color H W results) as [tl|e] eqn:Et; cbn [bind] in E;
      [|discriminate].
    destruct (IH tl eq_refl) as [Hf Hl].
    injection E as <-. destruct o as [m|].
    + split; [constructor; [now apply (text_region_ok r)|exact Hf]|simpl; lia].
    + split; [exact Hf|simpl; lia].
Qed.

Lemma merge_step_ok cur other m :
  region_ok cur -> region_ok other -> merge_step_spec 10 cur other m -> region_ok m.
Proof.
  unfold region_ok, merge_step_spec.
  destruct (rbox cur) as [[[x1 y1] w1] h1], (rbox other) as [[[x2 y2] w2] h2].
  cbn [bw bh].
  intros [Hc1 [Hs1 [He1 [Hw1 [Hh1 Ha1]]]]] [Hc2 [Hs2 [He2 [Hw2 [Hh2 Ha2]]]]]
         [_ [_ [_ [_ [Hb [Ht [Hc _]]]]]]].
  rewrite Hb, Ht, Hc. cbn [bw bh].
  split; [destruct (Qmin_cases (rconf cur) (rconf other)) as [-> | ->]; assumption|].
  split; [destruct (_ && _); apply starts_ok_app; exact Hs1|].
  split.
  { destruct (_ && _); [|now apply ends_ok_app].
    change (rtext cur ++ " "%char :: rtext other) with (rtext cur ++ [" "%char] ++ rtext other).
    rewrite app_assoc. now apply ends_ok_app. }
  split; [lia|]. split; [lia|].
  eapply Qle_trans; [exact Ha1|]. rewrite <- Zle_Qle. nia.
Qed.

Lemma merged_from_ok regs m :
  Forall region_ok regs -> merged_from 10 regs m -> region_ok m.
Proof.
  intros Hf. rewrite Forall_forall in Hf.
  induction 1 as [r Hr | cur other m Hcur IH Hother Hs]; [now apply Hf|].
  exact (merge_step_ok cur other m IH (Hf other Hother) Hs).
Qed.

Lemma merge_nearby_regions_from regs out :
  merge_nearby_regions 10 regs = Ok out ->
  (forall m, In m out -> merged_from 10 regs m) /\ (length out <= length regs)%nat.
Proof.
  unfold merge_nearby_regions. destruct regs as [|r0 rs0] eqn:Ers.
  - intros E. injection E as <-. split; [intros m []|simpl; lia].
  - rewrite <- Ers. intros E. split.
    + eapply merge_loop_spec; [exact E|].
      intros i r Hin. unfold enumerate in Hin. apply in_combine_r in Hin.
      now apply In_sort_by in Hin.
    + apply merge_loop_length in E.
      unfold enumerate in E. rewrite length_combine, length_seq, Nat.min_id in E.
      now rewrite sort_by_length in E.
Qed.

End TextRegionProofs.

(** Every region returned by [detect_text_regions] has confidence at least
    0.3, a text with no leading or trailing whitespace, a box of non-negative
    width and height, and a box area of at least 0.0002 of the image area:
    the filters of lines 375-398 hold for the regions kept and still hold
    after merging. *)
Theorem detect_text_regions_ok mean_color H W results out :
  detect_text_regions mean_color H W results = Ok out ->
  Forall (fun m =>
    (3 # 10 <= rconf m)%Q /\ starts_ok (rtext m) = true /\ ends_ok (rtext m) = true /\
    0 <= bw (rbox m) /\ 0 <= bh (rbox m) /\
    (inject_Z W * inject_Z H * (2 # 10000) <= inject_Z (bw (rbox m) * bh (rbox m)))%Q) out.
Proof.
  unfold detect_text_regions. intros E. peel_ok E. peel_ok E. injection E as <-.
  destruct (text_regions_ok _ _ _ _ _ E0) as [Hf _].
  destruct (merge_nearby_regions_from _ _ E1) as [Hm _].
  apply Forall_forall. intros m Hin. apply In_sort_by in Hin.
  exact (merged_from_ok H W _ _ Hf (Hm m Hin)).
Qed.

(** Two OCR results on one line of a 200x200 image and a third too faint. *)
Definition sample_ocr : list (list (Q * Q) * str * Q) :=
  [([(10, 20); (40, 20); (40, 35); (10, 35)]%Q, s " Hello", 9 # 10);
   ([(45, 21); (80, 21); (80, 35); (45, 35)]%Q, s "world ", 8 # 10);
   ([(0, 100); (50, 100); (50, 120); (0, 120)]%Q, s "faint", 1 # 10)].

Lemma detect_text_regions_ok_witness :
  exists out,
    detect_text_regions (fun _ => (0, 0, 0)%Q) 200 200 sample_ocr = Ok out /\
    map rtext out = [s "Hello world"] /\
    Forall (fun m =>
      (3 # 10 <= rconf m)%Q /\ starts_ok (rtext m) = true /\ ends_ok (rtext m) = true /\
      0 <= bw (rbox m) /\ 0 <= bh (rbox m) /\
      (inject_Z 200 * inject_Z 200 * (2 # 10000) <= inject_Z (bw (rbox m) * bh (rbox m)))%Q)
      out.
Proof.
  eexists. split; [vm_compute; reflexivity|]. split; [vm_compute; reflexivity|].
  eapply (detect_text_regions_ok (fun _ => (0, 0, 0)%Q) 200 200 sample_ocr).
  vm_compute. reflexivity.
Defined.

(** ** The stable sort: order and permutation *)

Lemma insert_by_perm {A} (le : A -> A -> bool) x l : Permutation (insert_by le x l) (x :: l).
Proof.
  induction l as [|y ys IH]; simpl; [reflexivity|].
  destruct (le x y); [reflexivity|].
  rewrite IH. apply perm_swap.
Qed.

Lemma sort_by_perm {A} (le : A -> A -> bool) l : Permutation (sort_by le l) l.
Proof.
  induction l as [|x xs IH]; simpl; [reflexivity|].
  rewrite insert_by_perm. now apply perm_skip.
Qed.

Section SortOrder.

Context {A : Type} (le : A -> A -> bool).
Hypothesis le_total : forall a b, le a b = false -> le b a = true.

Lemma insert_by_hd y x l :
  le y x = true -> HdRel (fun a b => le a b = true) y l ->
  HdRel (fun a b => le a b = true) y (insert_by le x l).
Proof.
  intros Hyx Hd. destruct l as [|z zs]; simpl; [now constructor|].
  destruct (le x z); constructor; [exact Hyx|]. now inversion Hd.
Qed.

Lemma insert_by_sorted x l :
  Sorted (fun a b => le a b = true) l -> Sorted (fun a b => le a b = true) (insert_by le x l).
Proof.
  induction l as [|y ys IH]; intros Hs; simpl; [now repeat constructor|].
  inversion Hs as [|? ? Hys Hd]; subst.
  destruct (le x y) eqn:E; [now constructor; [|constructor]|].
  constructor; [now apply IH|]. apply insert_by_hd; [now apply le_total|exact Hd].
Qed.

Lemma sort_by_sorted l : Sorted (fun a b => le a b = true) (sort_by le l).
Proof.
  induction l as [|x xs IH]; simpl; [constructor|]. now apply insert_by_sorted.
Qed.

End SortOrder.

Lemma lex_le_total a b : lex_le a b = false -> lex_le b a = true.
Proof.
  destruct a as [a1 a2], b as [b1 b2]. unfold lex_le. cbn [fst snd].
  destruct (Z.ltb_spec a1 b1), (Z.eqb_spec a1 b1), (Z.leb_spec a2 b2),
           (Z.ltb_spec b1 a1), (Z.eqb_spec b1 a1), (Z.leb_spec b2 a2);
    simpl; intros; try reflexivity; try discriminate; lia.
Qed.

(** [detect_text_regions] returns its regions sorted by the top edge, then
    the left edge, of their boxes, and never more regions than EasyOCR
    returned results. *)
Theorem detect_text_regions_sorted mean_color H W results out :
  detect_text_regions mean_color H W results = Ok out ->
  Sorted (fun a b => lex_le (by_ (rbox a), bx (rbox a)) (by_ (rbox b), bx (rbox b)) = true) out /\
  (length out <= length results)%nat.
Proof.
  unfold detect_text_regions. intros E. peel_ok E. peel_ok E. injection E as <-.
  split.
  - apply (sort_by_sorted region_key_le). intros x y. apply lex_le_total.
  - destruct (text_regions_ok _ _ _ _ _ E0) as [_ Hl1].
    destruct (merge_nearby_regions_from _ _ E1) as [_ Hl2].
    rewrite sort_by_length. lia.
Qed.

Lemma detect_text_regions_sorted_witness :
  exists out,
    detect_text_regions (fun _ => (0, 0, 0)%Q) 200 200 sample_ocr = Ok out /\
    Sorted (fun a b => lex_le (by_ (rbox a), bx (rbox a)) (by_ (rbox b), bx (rbox b)) = true) out /\
    (length out <= length sample_ocr)%nat.
Proof.
  eexists. split; [vm_compute; reflexivity|].
  eapply (detect_text_regions_sorted (fun _ => (0, 0, 0)%Q) 200 200 sample_ocr).
  vm_compute. reflexivity.
Defined.

(** ** detect_grid: order of the returned boxes *)

Lemma pos_eqb_eq p q : pos_eqb p q = true <-> p = q.
Proof.
  destruct p as [a b], q as [c d]. unfold pos_eqb. cbn [fst snd].
  rewrite andb_true_iff, !Z.eqb_eq. split; [intros [-> ->]; reflexivity|].
  intros E. injection E as -> ->. auto.
Qed.

Lemma position_boxes_spec H W gw gh bs : forall used l,
  position_boxes H W gw gh used bs = Ok l ->
  (forall x, In x l -> In (fst x) bs /\ get_grid_position H W gw gh (fst x) = Ok (snd x) /\
                       ~ In (snd x) used) /\
  NoDup (map snd l).
Proof.
  induction bs as [|b bs IH]; intros used l E; simpl in E.
  - injection E as <-. split; [intros x []|constructor].
  - destruct (get_grid_position H W gw gh b) as [p|e] eqn:Eg; cbn [bind] in E; [|discriminate].
    destruct (existsb (pos_eqb p) used) eqn:Eu.
    + destruct (IH used l E) as [H1 H2]. split; [|exact H2].
      intros x Hx. destruct (H1 x Hx) as [? ?]. split; [now right|auto].
    + destruct (position_boxes H W gw gh (p :: used) bs) as [tl|e] eqn:Et;
        cbn [bind] in E; [|discriminate].
      injection E as <-. destruct (IH _ _ Et) as [H1 H2].
      assert (Hp : ~ In p used).
      { intros Hin. assert (existsb (pos_eqb p) used = true) as Hc
          by (apply existsb_exists; exists p; split; [exact Hin|now apply pos_eqb_eq]).
        congruence. }
      split.
      * intros x [<- | Hx]; [cbn [fst snd]; split; [now left|auto]|].
        destruct (H1 x Hx) as [Hb [Hg Hn]].
        split; [now right|]. split; [exact Hg|]. intros Hin. apply Hn. now right.
      * cbn [map]. constructor; [|exact H2].
        intros Hin. apply in_map_iff in Hin. destruct Hin as [x [Hx Hin]].
        destruct (H1 x Hin) as [_ [_ Hn]]. apply Hn. left. cbn in Hx |- *. congruence.
Qed.

Lemma get_grid_position_range H W gw gh b p :
  get_grid_position H W gw gh b = Ok p ->
  0 <= fst p < Z.max 1 gh /\ 0 <= snd p < Z.max 1 gw.
Proof.
  unfold get_grid_position. intros E. peel_ok E. peel_ok E. injection E as <-.
  cbn [fst snd]. unfold clamp. lia.
Qed.

(** [detect_grid] returns only candidate boxes (boxes of the accepted
    detection pass or of the synthetic grid), at most one per grid cell, in
    row-major order of their cells: the cells computed by [get_grid_position]
    for the returned boxes are pairwise distinct, sorted by row then column,
    and lie in [0, max 1 grid_height) x [0, max 1 grid_width). *)
Theorem detect_grid_row_major tryd H W rows cols gw gh bs :
  detect_grid tryd H W rows cols = Ok (gw, gh, bs) ->
  (exists best, select_boxes tryd H W rows cols = Ok best /\ incl bs best) /\
  exists ps, map (get_grid_position H W gw gh) bs = map Ok ps /\
    Sorted (fun p q => lex_le p q = true) ps /\ NoDup ps /\
    Forall (fun p => 0 <= fst p < Z.max 1 gh /\ 0 <= snd p < Z.max 1 gw) ps.
Proof.
  unfold detect_grid. intros E.
  destruct (select_boxes tryd H W rows cols) as [best|e] eqn:Es; cbn [bind] in E; [|discriminate].
  set (sb := sort_by box_key_le best) in E.
  destruct (match rows, cols with
            | Some r, Some c => (c, r)
            | _, _ => (find_clusters (map center_x sb), find_clusters (map center_y sb))
            end) as [gw0 gh0].
  destruct (position_boxes H W gw0 gh0 [] sb) as [l|e] eqn:Ep; cbn [bind] in E; [|discriminate].
  injection E as <- <- <-.
  destruct (position_boxes_spec _ _ _ _ _ _ _ Ep) as [Hl Hnd].
  set (sl := sort_by pos_key_le l).
  assert (Hin : forall x, In x sl -> In x l) by (intros x Hx; now apply In_sort_by in Hx).
  split.
  - exists best. split; [reflexivity|]. intros b Hb. apply in_map_iff in Hb.
    destruct Hb as [x [<- Hx]]. destruct (Hl x (Hin x Hx)) as [Hb _].
    unfold sb in Hb. now apply In_sort_by in Hb.
  - exists (map snd sl). split; [|split; [|split]].
    + rewrite !map_map. apply map_ext_in. intros x Hx.
      now destruct (Hl x (Hin x Hx)) as [_ [Hg _]].
    + assert (Hs : Sorted (fun a b => pos_key_le a b = true) sl).
      { apply sort_by_sorted. intros a b. apply lex_le_total. }
      clear -Hs. induction Hs as [|x l' Hl' IH Hd]; cbn [map]; constructor; [exact IH|].
      destruct Hd as [|y l'' Hxy]; cbn [map]; constructor. exact Hxy.
    + eapply Permutation_NoDup; [|exact Hnd].
      apply Permutation_map. symmetry. apply sort_by_perm.
    + apply Forall_forall. intros p Hp. apply in_map_iff in Hp. destruct Hp as [x [<- Hx]].
      destruct (Hl x (Hin x Hx)) as [_ [Hg _]]. exact (get_grid_position_range _ _ _ _ _ _ Hg).
Qed.

Lemma detect_grid_row_major_witness :
  exists bs,
    detect_grid Samples.detect_board_3x4 300 400 None None = Ok (4, 3, bs) /\
    ((exists best, select_boxes Samples.detect_board_3x4 300 400 None None = Ok best /\
                   incl bs best) /\
     exists ps, map (get_grid_position 300 400 4 3) bs = map Ok ps /\
       Sorted (fun p q => lex_le p q = true) ps /\ NoDup ps /\
       Forall (fun p => 0 <= fst p < Z.max 1 3 /\ 0 <= snd p < Z.max 1 4) ps).
Proof.
  eexists. split; [vm_compute; reflexivity|].
  eapply (detect_grid_row_major Samples.detect_board_3x4 300 400 None None 4 3).
  vm_compute. reflexivity.
Defined.

(** ** find_clusters: bounds and evenly spaced coordinates *)

Lemma diff_length l : length (diff l) = (length l - 1)%nat.
Proof.
  induction l as [|a [|b t] IH]; simpl; [reflexivity|reflexivity|].
  simpl in IH. rewrite IH. lia.
Qed.

(** Of a non-empty list of coordinates, [find_clusters] counts between one
    cluster and one cluster per coordinate. *)
Theorem find_clusters_bounds coords :
  coords <> [] -> 1 <= find_clusters coords <= Z.of_nat (length coords).
Proof.
  intros Hne. unfold find_clusters. destruct coords as [|c cs] eqn:Ec; [congruence|].
  rewrite <- Ec. cbv zeta.
  set (diffs := diff (sort_Q coords)).
  set (p := fun i => _ : bool).
  assert (Hd : length diffs = (length coords - 1)%nat).
  { unfold diffs, sort_Q. rewrite diff_length, sort_by_length. reflexivity. }
  pose proof (filter_length_le p (seq 0 (length diffs))) as Hf.
  rewrite length_seq, Hd in Hf.
  assert (length coords <> 0%nat) by (rewrite Ec; discriminate). rewrite Hd. lia.
Qed.

Lemma find_clusters_bounds_witness :
  [50; 150; 50; 150]%Q <> [] /\
  1 <= find_clusters [50; 150; 50; 150]%Q <= Z.of_nat (length [50; 150; 50; 150]%Q).
Proof.
  split; [discriminate|]. apply find_clusters_bounds. discriminate.
Defined.

Lemma sort_by_sorted_id {A} (le : A -> A -> bool) l :
  Sorted (fun a b => le a b = true) l -> sort_by le l = l.
Proof.
  induction 1 as [|x l Hl IH Hd]; simpl; [reflexivity|].
  rewrite IH. destruct Hd as [|y l' Hxy]; simpl; [reflexivity|]. now rewrite Hxy.
Qed.

Definition progression (a d : Q) (k n : nat) : list Q :=
  map (fun i => (a + inject_Z (Z.of_nat i) * d)%Q) (seq k n).

Lemma progression_sorted a d k n :
  (0 <= d)%Q -> Sorted (fun x y => Qle_b x y = true) (progression a d k n).
Proof.
  intros Hd. revert k. induction n as [|n IH]; intros k; [constructor|].
  unfold progression. cbn [seq map]. constructor; [apply IH|].
  destruct n as [|n]; cbn [seq map]; constructor.
  unfold Qle_b. apply Qle_bool_iff. rewrite Nat2Z.inj_succ, <- Z.add_1_r, inject_Z_plus.
  change (inject_Z 1) with 1%Q. nra.
Qed.

Lemma progression_diff a d k n :
  Forall (fun x => x == d)%Q (diff (progression a d k n)).
Proof.
  revert k. induction n as [|n IH]; intros k; [constructor|].
  destruct n as [|n]; [constructor|].
  unfold progression. cbn [seq map diff]. constructor.
  - rewrite Nat2Z.inj_succ, <- Z.add_1_r, inject_Z_plus. ring.
  - exact (IH (S k)).
Qed.

Lemma sorted_all_eq d l :
  Forall (fun x => x == d)%Q l -> Sorted (fun x y => Qle_b x y = true) l.
Proof.
  induction 1 as [|x l Hx Hl IH]; constructor; [exact IH|].
  destruct Hl as [|y l' Hy _]; constructor.
  unfold Qle_b. apply Qle_bool_iff. rewrite Hx, Hy. apply Qle_refl.
Qed.

Lemma nth_all_eq d l i :
  Forall (fun x => x == d)%Q l -> (i < length l)%nat -> (nth i l 0 == d)%Q.
Proof.
  intros Hf Hi. rewrite Forall_forall in Hf. apply Hf. now apply nth_In.
Qed.

(** [find_clusters] finds a single cluster in evenly spaced coordinates
    [a, a + d, ..., a + n d] (with [d >= 0]): every gap equals the median
    gap, and a gap counts only when it exceeds 1.2 times the median.  So a
    single row of evenly spaced buttons is read as one column. *)
Theorem find_clusters_uniform a d n :
  (0 <= d)%Q -> find_clusters (progression a d 0 (S n)) = 1.
Proof.
  intros Hd. unfold find_clusters. cbv zeta. cbn [progression seq map].
  fold (progression a d 1 n).
  change (_ :: progression a d 1 n) with (progression a d 0 (S n)).
  unfold sort_Q. rewrite (sort_by_sorted_id _ _ (progression_sorted a d 0 (S n) Hd)).
  set (diffs := diff (progression a d 0 (S n))).
  assert (Hall : Forall (fun x => x == d)%Q diffs) by apply progression_diff.
  assert (Hmed : diffs <> [] -> (median diffs == d)%Q).
  { intros Hne. unfold median. unfold sort_Q.
    rewrite (sort_by_sorted_id _ _ (sorted_all_eq d diffs Hall)).
    assert (Hl : length diffs <> 0%nat) by (destruct diffs; [congruence|discriminate]).
    destruct (Nat.odd (length diffs)).
    - apply nth_all_eq; [exact Hall|]. apply Nat.div_lt; lia.
    - destruct (length diffs) as [|m] eqn:Em; [lia|]. rewrite <- Em.
      rewrite (nth_all_eq d diffs _ Hall), (nth_all_eq d diffs (length diffs / 2) Hall).
      + field.
      + apply Nat.div_lt; lia.
      + pose proof (Nat.div_lt (length diffs) 2). lia. }
  assert (Hnone : filter (fun i => Qlt_b (median diffs * (6 # 5)) (nth i diffs 0%Q) &&
                                   Qlt_b (mean diffs * (4 # 5)) (nth i diffs 0%Q))
                         (seq 0 (length diffs)) = []).
  { assert (Hgen : forall (f : nat -> bool) l,
             (forall i, In i l -> f i = false) -> filter f l = []).
    { intros f l Hf. induction l as [|x l IHl]; simpl; [reflexivity|].
      rewrite Hf by (now left). apply IHl. intros j Hj. apply Hf. now right. }
    apply Hgen. intros i Hi. apply in_seq in Hi.
    assert (Hne : diffs <> []) by (intros E; rewrite E in Hi; simpl in Hi; lia).
    assert (Hi' : (nth i diffs 0 == d)%Q) by (apply nth_all_eq; [exact Hall|lia]).
    unfold Qlt_b. replace (Qle_bool (nth i diffs 0%Q) (median diffs * (6 # 5))) with true.
    - reflexivity.
    - symmetry. apply Qle_bool_iff. rewrite Hi', (Hmed Hne). lra. }
  rewrite Hnone. reflexivity.
Qed.

Lemma find_clusters_uniform_witness :
  (0 <= 100)%Q /\ find_clusters (progression 50 100 0 4) = 1.
Proof.
  split; [unfold Qle; simpl; lia|]. apply (find_clusters_uniform 50 100 3). unfold Qle; simpl; lia.
Defined.

(** ** merge_nearby_regions keeps every character of the OCR text *)

(** The number of non-space characters of a text, and of a list of regions. *)
Definition nonspace (t : str) : nat :=
  length (filter (fun c => negb (Ascii.eqb c " "%char)) t).

Definition text_mass (l : list region) : nat := list_sum (map (fun r => nonspace (rtext r)) l).

(** The non-space characters of the regions of [items] whose index is not in [used]. *)
Fixpoint avail (used : list nat) (items : list (nat * region)) : nat :=
  match items with
  | [] => O
  | (j, r) :: rest =>
      ((if existsb (Nat.eqb j) used then O else nonspace (rtext r)) + avail used rest)%nat
  end.

Lemma existsb_nat_In j used : existsb (Nat.eqb j) used = true <-> In j used.
Proof.
  rewrite existsb_exists. split.
  - intros [k [Hk E]]. apply Nat.eqb_eq in E. now subst.
  - intros Hin. exists j. split; [exact Hin|apply Nat.eqb_refl].
Qed.

Lemma avail_cons_notin i used items :
  ~ In i (map fst items) -> avail (i :: used) items = avail used items.
Proof.
  induction items as [|[j r] rest IH]; intros Hn; simpl; [reflexivity|].
  cbn [map fst In] in Hn. rewrite IH by tauto.
  destruct (Nat.eqb_spec j i); [exfalso; apply Hn; now left|reflexivity].
Qed.

Lemma join_text_nonspace t1 t2 t :
  join_text t1 t2 = Ok t -> nonspace t = (nonspace t1 + nonspace t2)%nat.
Proof.
  unfold join_text, nonspace. intros E.
  destruct (last_char t1) as [c1|e]; cbn [bind] in E; [|discriminate].
  destruct (is_alnum c1);
    [destruct (first_char t2) as [c2|e]; cbn [bind] in E; [|discriminate];
     destruct (is_alnum c2)|];
    injection E as <-; rewrite filter_app, length_app; reflexivity.
Qed.

Lemma try_merge_nonspace thr cur other m :
  try_merge thr cur other = Ok (Some m) ->
  nonspace (rtext m) = (nonspace (rtext cur) + nonspace (rtext other))%nat.
Proof.
  unfold try_merge. intros E.
  destruct (Z.max _ _ =? 0); [discriminate|].
  destruct (Qlt_b _ _); [discriminate|].
  destruct (horizontal_merge _ _ _); [|discriminate].
  peel_ok E. injection E as <-. cbn [rtext with_box_text_conf].
  exact (join_text_nonspace _ _ _ E0).
Qed.

Lemma merge_into_nonspace thr js : forall cur used m used',
  NoDup (map fst js) ->
  merge_into thr cur used js = Ok (m, used') ->
  (nonspace (rtext m) + avail used' js = nonspace (rtext cur) + avail used js)%nat /\
  incl used used' /\ (forall k, In k used' -> In k used \/ In k (map fst js)).
Proof.
  induction js as [|[j other] rest IH]; intros cur used m used' Hnd E; simpl in E.
  - injection E as <- <-. split; [reflexivity|]. split; [apply incl_refl|]. now left.
  - cbn [map fst] in Hnd. inversion Hnd as [|? ? Hj Hnd']; subst.
    destruct (existsb (Nat.eqb j) used) eqn:Eu.
    + destruct (IH _ _ _ _ Hnd' E) as [Hm [Hi Hk]]. cbn [avail]. rewrite Eu.
      replace (existsb (Nat.eqb j) used') with true
        by (symmetry; apply existsb_nat_In, Hi, existsb_nat_In, Eu).
      split; [lia|]. split; [exact Hi|].
      intros k Hk'. destruct (Hk k Hk'); [now left|right; now right].
    + destruct (try_merge thr cur other) as [[m1|]|e] eqn:Et; cbn [bind] in E; [| |discriminate].
      * destruct (IH _ _ _ _ Hnd' E) as [Hm [Hi Hk]]. cbn [avail]. rewrite Eu.
        replace (existsb (Nat.eqb j) used') with true
          by (symmetry; apply existsb_nat_In, Hi; now left).
        rewrite avail_cons_notin in Hm by exact Hj.
        rewrite (try_merge_nonspace _ _ _ _ Et) in Hm.
        split; [lia|]. split; [intros k Hk'; apply Hi; now right|].
        intros k Hk'. destruct (Hk k Hk') as [[<-|H1]|H1];
          [right; now left|now left|right; now right].
      * destruct (IH _ _ _ _ Hnd' E) as [Hm [Hi Hk]]. cbn [avail]. rewrite Eu.
        replace (existsb (Nat.eqb j) used') with false.
        -- split; [lia|]. split; [exact Hi|].
           intros k Hk'. destruct (Hk k Hk'); [now left|right; now right].
        -- symmetry. apply Bool.not_true_iff_false. intros Hin.
           apply existsb_nat_In in Hin. destruct (Hk j Hin) as [H1|H1]; [|contradiction].
           apply existsb_nat_In in H1. congruence.
Qed.

Lemma merge_loop_nonspace thr items : forall used out,
  NoDup (map fst items) ->
  merge_loop thr items used = Ok out -> text_mass out = avail used items.
Proof.
  induction items as [|[i r] rest IH]; intros used out Hnd E; simpl in E.
  - injection E as <-. reflexivity.
  - cbn [map fst] in Hnd. inversion Hnd as [|? ? Hi Hnd']; subst.
    cbn [avail]. destruct (existsb (Nat.eqb i) used) eqn:Eu.
    + exact (IH _ _ Hnd' E).
    + destruct (merge_into thr r used rest) as [[m used']|e] eqn:Em; cbn [bind snd] in E;
        [|discriminate].
      destruct (merge_loop thr rest (i :: used')) as [tl|e] eqn:El; cbn [bind] in E;
        [|discriminate].
      injection E as <-. cbn [fst].
      change (text_mass (m :: tl)) with (nonspace (rtext m) + text_mass tl)%nat. rewrite (IH _ _ Hnd' El), avail_cons_notin by exact Hi.
      destruct (merge_into_nonspace _ _ _ _ _ _ Hnd' Em) as [Hm _]. lia.
Qed.

Lemma map_fst_combine {A B} (l : list A) (l' : list B) :
  length l = length l' -> map fst (combine l l') = l.
Proof.
  revert l'. induction l as [|a l IH]; intros [|b l'] Hl; simpl in *; try discriminate;
    [reflexivity|]. f_equal. apply IH. lia.
Qed.

Lemma avail_nil items : avail [] items = text_mass (map snd items).
Proof.
  induction items as [|[j r] rest IH]; [reflexivity|]. cbn [avail existsb map snd].
  rewrite IH. reflexivity.
Qed.

Lemma map_snd_combine {A B} (l : list A) (l' : list B) :
  length l = length l' -> map snd (combine l l') = l'.
Proof.
  revert l'. induction l as [|a l IH]; intros [|b l'] Hl; simpl in *; try discriminate;
    [reflexivity|]. f_equal. apply IH. lia.
Qed.

(** [merge_nearby_regions] neither loses nor duplicates OCR text: the
    non-space characters of the returned regions' texts number exactly those
    of the input regions' texts (a merge concatenates the two texts, with at
    most one space between them, and every input region ends up in exactly
    one output region). *)
Theorem merge_nearby_regions_text_mass thr regions out :
  merge_nearby_regions thr regions = Ok out -> text_mass out = text_mass regions.
Proof.
  unfold merge_nearby_regions. destruct regions as [|r0 rs] eqn:Er.
  - intros E. injection E as <-. reflexivity.
  - rewrite <- Er. intros E.
    set (sr := sort_by region_key_le regions) in E.
    assert (Hlen : length (seq 0 (length sr)) = length sr) by apply length_seq.
    unfold enumerate in E.
    rewrite (merge_loop_nonspace _ _ _ _ ltac:(rewrite map_fst_combine by exact Hlen;
                                                apply seq_NoDup) E).
    rewrite avail_nil, map_snd_combine by exact Hlen.
    unfold text_mass. apply Permutation_list_sum, Permutation_map, sort_by_perm.
Qed.

Lemma merge_nearby_regions_text_mass_witness :
  exists out,
    merge_nearby_regions 15 Samples.fragments = Ok out /\
    text_mass out = text_mass Samples.fragments.
Proof.
  eexists. split; [vm_compute; reflexivity|].
  apply (merge_nearby_regions_text_mass 15 Samples.fragments). vm_compute. reflexivity.
Defined.
